(** * Cookie shop: cart store, query engine and order builder

    A shallow embedding of the state logic of [CookieShop]
    (cookie_shop_single_file_react_app.jsx) and the properties of its
    specification.

    Conventions of the embedding.
    - A cart is the JS object held in the [cart] state cell, used as a map
      from product id to quantity: a [gmap string Z].  The spread copy
      [{ ...prev }] followed by an assignment or a [delete] is an insert or
      a delete on the map.
    - Quantities are integers ([Z]), as the data model of the specification
      has them and as every call site produces them ([1], [3], [qty - 1],
      [qty + 1]).  Prices are exact rationals ([Q]): [4.5], [4.75], ...
    - The cart operations are embedded a second time in [Obj], on the cart
      as the engine holds it: a plain object that inherits from
      [Object.prototype], with doubles for values ([Double]).  The
      properties of [addToCart], [updateQty] and [itemsInCart] are stated
      on that embedding; on carts of safe integers and ids that are no
      property of [Object.prototype] it agrees with the map
      ([addToCart_of_cart], [updateQty_of_cart], [itemsInCart_of_cart]).
    - Texts are strings of bytes; the search is stated for ASCII texts, on
      which [toLowerCase] changes the capitals A to Z and nothing else.
    - React state setters are modelled by explicit state passing. *)

From Stdlib Require Import ZArith QArith Lqa String Ascii List Sorting.Sorted.
From stdpp Require Import gmap strings list fin_maps pretty.

Local Open Scope string_scope.
Local Open Scope Z_scope.

(** ** JavaScript values used by the component *)

Module Js.

(** [x || 0] on a number: [0] is the only falsy integer. *)
Definition or_zero (x : option Z) : Z :=
  match x with
  | Some v => if Z.eqb v 0 then 0 else v
  | None => 0
  end.

(** [x || 0] on a price. *)
Definition or_zeroQ (x : option Q) : Q :=
  match x with
  | Some v => if Qeq_bool v 0 then 0%Q else v
  | None => 0%Q
  end.

(** [x || y] on strings: the empty string is the only falsy string. *)
Definition or_string (x : option string) (y : string) : string :=
  match x with
  | Some EmptyString | None => y
  | Some v => v
  end.

(** [Object.entries(o)] and [Object.values(o)] of an object used as a map.
    JavaScript enumerates the keys in the order of their creation; the map
    enumerates them in an order of its own.  The cart is only ever
    enumerated to sum over it or to map over it, and the sums are the same
    in every order ([total_any_order] below). *)
Definition Object_entries (o : gmap string Z) : list (string * Z) :=
  map_to_list o.

Definition Object_values (o : gmap string Z) : list Z :=
  (Object_entries o).*2.

(** [String.prototype.toLowerCase] on ASCII texts: the capitals A to Z
    become the small letters, every other character is left as it is.
    (Outside ASCII the method has mappings of its own, which are not
    modelled: the properties of the search are stated for ASCII texts.) *)
Definition toLowerCase_ascii (c : ascii) : ascii :=
  let n := N_of_ascii c in
  if ((65 <=? n) && (n <=? 90))%N then ascii_of_N (n + 32) else c.

Fixpoint toLowerCase (s : string) : string :=
  match s with
  | EmptyString => EmptyString
  | String c s' => String (toLowerCase_ascii c) (toLowerCase s')
  end.

(** [s.includes(search)]: [search] occurs in [s] at some position. *)
Fixpoint includes (s search : string) : bool :=
  if String.prefix search s then true
  else match s with
       | EmptyString => false
       | String _ s' => includes s' search
       end.

(** [Array.prototype.sort(compareFn)], which ECMAScript requires to be
    stable: an element moves behind another one only when [compareFn]
    puts it strictly after.  Modelled as the stable insertion sort; for a
    comparison of prices every stable sort returns the same list
    ([stably_ordered_unique] below). *)
Fixpoint sort_insert {A} (compareFn : A → A → Q) (x : A) (sorted : list A)
  : list A :=
  match sorted with
  | [] => [x]
  | y :: ys =>
      if Qle_bool (compareFn x y) 0 then x :: y :: ys
      else y :: sort_insert compareFn x ys
  end.

Definition sort {A} (compareFn : A → A → Q) (l : list A) : list A :=
  foldr (sort_insert compareFn) [] l.

(** ['ORD-' + n] converts the integer [n] to its decimal numeral. *)
Definition number_to_string (n : Z) : string := pretty n.

End Js.

(** ** Cart store

    The cart as a mapping from product ids to integer quantities.  This is
    what the object holds as long as the ids are no names of properties of
    [Object.prototype] and the quantities are safe integers; [Obj] below
    embeds the same functions without these assumptions. *)

Module Cart.

Abbreviation t := (gmap string Z).

(** [addToCart(productId, qty = 1)]: the updater passed to [setCart]. *)
Definition addToCart (productId : string) (qty : Z) (prev : t) : t :=
  let next := prev in
  <[productId := Js.or_zero (next !! productId) + qty]> next.

(** [updateQty(productId, qty)]: the updater passed to [setCart]. *)
Definition updateQty (productId : string) (qty : Z) (prev : t) : t :=
  let next := prev in
  if Z.leb qty 0 then delete productId next
  else <[productId := qty]> next.

(** [clearCart()]: [setCart({})]. *)
Definition clearCart : t := ∅.

(** The CartEntry invariant on quantities: every stored quantity is at
    least [1]. *)
Definition quantities_positive (c : t) : Prop :=
  ∀ (id : string) (q : Z), c !! id = Some q → 1 ≤ q.

(** The intents that change the cart. *)
Inductive intent : Type :=
| Add (productId : string) (qty : Z)
| SetQuantity (productId : string) (qty : Z)
| Clear.

Definition step (c : t) (i : intent) : t :=
  match i with
  | Add id q => addToCart id q c
  | SetQuantity id q => updateQty id q c
  | Clear => clearCart
  end.

Definition run (intents : list intent) (c : t) : t := foldl step c intents.

(** [add] is only ever called with a positive quantity. *)
Definition admissible (i : intent) : Prop :=
  match i with
  | Add _ q => 0 < q
  | SetQuantity _ _ | Clear => True
  end.

End Cart.

(** ** Catalog *)

Module Product.

Record t : Type := mk {
  id : string;
  name : string;
  price : Q;
  category : string;
  desc : string;
  img : string;
}.

End Product.

Definition SAMPLE_PRODUCTS : list Product.t :=
  [ Product.mk "cookies-01" "Classic Chocolate Chip" (9 # 2) "Classic"
      "Chewy, buttery cookies packed with semi-sweet chocolate chips."
      "https://images.unsplash.com/photo-1606755962779-0c2a3d4a5c3b?q=80&w=800&auto=format&fit=crop&ixlib=rb-4.0.3&s=1";
    Product.mk "cookies-02" "Oatmeal Raisin" 4 "Healthy"
      "Wholesome oats, plump raisins and a cinnamon hint."
      "https://images.unsplash.com/photo-1565958011703-44f9829ba187?q=80&w=800&auto=format&fit=crop&ixlib=rb-4.0.3&s=2";
    Product.mk "cookies-03" "Double Chocolate" 5 "Decadent"
      "Intense cocoa cookie with extra dark chocolate chunks."
      "https://images.unsplash.com/photo-1544025161-7f53f50f98b0?q=80&w=800&auto=format&fit=crop&ixlib=rb-4.0.3&s=3";
    Product.mk "cookies-04" "Peanut Butter Swirl" (19 # 4) "Classic"
      "Creamy peanut butter ribbon in a soft cookie."
      "https://images.unsplash.com/photo-1605475129286-1a29e0a6fb8b?q=80&w=800&auto=format&fit=crop&ixlib=rb-4.0.3&s=4" ].

(** [products.find(x => x.id === id)] *)
Definition find_product (products : list Product.t) (id : string)
  : option Product.t :=
  List.find (λ x, String.eqb (Product.id x) id) products.

(** ** Derived values of the cart *)

(** [itemsInCart()] *)
Definition itemsInCart (cart : gmap string Z) : Z :=
  foldl (λ a b, a + b) 0 (Js.Object_values cart).

(** [cartTotal()] *)
Definition cartTotal (products : list Product.t) (cart : gmap string Z) : Q :=
  foldl (λ (sum : Q) '(id, qty),
           let p := find_product products id in
           (sum + match p with
                  | Some p => Product.price p * inject_Z qty
                  | None => 0
                  end)%Q)
        0%Q (Js.Object_entries cart).

(** ** Query engine *)

(** [filteredProducts()] *)
Definition filteredProducts (products : list Product.t)
    (query category sort : string) : list Product.t :=
  let out :=
    List.filter (λ p,
      Js.includes (Js.toLowerCase (Product.name p)) (Js.toLowerCase query)
      || Js.includes (Js.toLowerCase (Product.desc p)) (Js.toLowerCase query))
      products in
  let out :=
    if negb (String.eqb category "All")
    then List.filter (λ p, String.eqb (Product.category p) category) out
    else out in
  let out :=
    if String.eqb sort "price-asc"
    then Js.sort (λ a b, Product.price a - Product.price b)%Q out
    else out in
  let out :=
    if String.eqb sort "price-desc"
    then Js.sort (λ a b, Product.price b - Product.price a)%Q out
    else out in
  out.

(** ** Order builder *)

Module OrderInfo.

(** The [orderInfo] state cell: the three fields of the checkout form. *)
Record t : Type := mk {
  name : string;
  email : string;
  address : string;
}.

End OrderInfo.

Module Item.

(** One element of [order.items]. *)
Record t : Type := mk {
  id : string;
  name : string;
  qty : Z;
  unitPrice : Q;
}.

End Item.

Module Order.

Record t : Type := mk {
  id : string;
  date : string;
  customer : OrderInfo.t;
  items : list Item.t;
  subtotal : Q;
  note : string;
}.

End Order.

(** The two readings of the clock taken while an order is built:
    [Date.now()] and [new Date().toISOString()]. *)
Record Clock : Type := mkClock {
  Date_now : Z;
  Date_toISOString : string;
}.

(** What a handler does besides updating the state. *)
Inductive effect : Type :=
| Alert (message : string)
| Download (filename : string) (receipt : Order.t).

Module State.

(** The state cells of the component. *)
Record t : Type := mk {
  products : list Product.t;
  query : string;
  category : string;
  sort : string;
  cart : gmap string Z;
  checkoutOpen : bool;
  orderInfo : OrderInfo.t;
  orderPlaced : option Order.t;
}.

Definition setQuery (v : string) (st : t) : t :=
  mk (products st) v (category st) (sort st) (cart st) (checkoutOpen st)
     (orderInfo st) (orderPlaced st).

Definition setCategory (v : string) (st : t) : t :=
  mk (products st) (query st) v (sort st) (cart st) (checkoutOpen st)
     (orderInfo st) (orderPlaced st).

Definition setSort (v : string) (st : t) : t :=
  mk (products st) (query st) (category st) v (cart st) (checkoutOpen st)
     (orderInfo st) (orderPlaced st).

Definition setCart (f : gmap string Z → gmap string Z) (st : t) : t :=
  mk (products st) (query st) (category st) (sort st) (f (cart st))
     (checkoutOpen st) (orderInfo st) (orderPlaced st).

Definition setCheckoutOpen (f : bool → bool) (st : t) : t :=
  mk (products st) (query st) (category st) (sort st) (cart st)
     (f (checkoutOpen st)) (orderInfo st) (orderPlaced st).

Definition setOrderInfo (v : OrderInfo.t) (st : t) : t :=
  mk (products st) (query st) (category st) (sort st) (cart st)
     (checkoutOpen st) v (orderPlaced st).

Definition setOrderPlaced (v : option Order.t) (st : t) : t :=
  mk (products st) (query st) (category st) (sort st) (cart st)
     (checkoutOpen st) (orderInfo st) v.

End State.

Definition fields_message : string :=
  "Please complete name, email and address.".

Definition empty_cart_message : string :=
  "Cart is empty. Add some cookies first.".

(** The [order] object built by [handlePlaceOrder]. *)
Definition build_order (clock : Clock) (st : State.t) : Order.t :=
  {| Order.id := "ORD-" +:+ Js.number_to_string (Date_now clock);
     Order.date := Date_toISOString clock;
     Order.customer := State.orderInfo st;
     Order.items :=
       List.map (λ '(id, qty),
                   let p := find_product (State.products st) id in
                   {| Item.id := id;
                      Item.name := Js.or_string (Product.name <$> p) id;
                      Item.qty := qty;
                      Item.unitPrice := Js.or_zeroQ (Product.price <$> p) |})
                (Js.Object_entries (State.cart st));
     Order.subtotal := cartTotal (State.products st) (State.cart st);
     Order.note :=
       "This is a simulated checkout — integrate a payment gateway for real orders." |}.

(** [handlePlaceOrder(e)]: the new state and the effects of one submission
    of the checkout form. *)
Definition handlePlaceOrder (clock : Clock) (st : State.t)
  : State.t * list effect :=
  let orderInfo := State.orderInfo st in
  if String.eqb (OrderInfo.name orderInfo) EmptyString
     || String.eqb (OrderInfo.email orderInfo) EmptyString
     || String.eqb (OrderInfo.address orderInfo) EmptyString
  then (st, [Alert fields_message])
  else if Z.eqb (itemsInCart (State.cart st)) 0
  then (st, [Alert empty_cart_message])
  else
    let order := build_order clock st in
    (State.setCheckoutOpen (λ _, false)
       (State.setCart (λ _, Cart.clearCart)
          (State.setOrderPlaced (Some order) st)),
     [Download (Order.id order +:+ "_receipt.json") order]).

(** ** The component as a state machine *)

(** The intents the page forwards to the component. *)
Inductive event : Type :=
| ChangeQuery (v : string)
| ChangeCategory (v : string)
| ChangeSort (v : string)
| ClickAdd (productId : string) (qty : Z)
| ClickQty (productId : string) (qty : Z)
| ClickClear
| ToggleCheckout
| OpenCheckout
| CloseCheckout
| ChangeOrderInfo (v : OrderInfo.t)
| SubmitCheckout (clock : Clock)
| CloseOrder.

Definition dispatch (st : State.t) (ev : event) : State.t * list effect :=
  match ev with
  | ChangeQuery v => (State.setQuery v st, [])
  | ChangeCategory v => (State.setCategory v st, [])
  | ChangeSort v => (State.setSort v st, [])
  | ClickAdd id qty => (State.setCart (Cart.addToCart id qty) st, [])
  | ClickQty id qty => (State.setCart (Cart.updateQty id qty) st, [])
  | ClickClear => (State.setCart (λ _, Cart.clearCart) st, [])
  | ToggleCheckout => (State.setCheckoutOpen negb st, [])
  | OpenCheckout => (State.setCheckoutOpen (λ _, true) st, [])
  | CloseCheckout => (State.setCheckoutOpen (λ _, false) st, [])
  | ChangeOrderInfo v => (State.setOrderInfo v st, [])
  | SubmitCheckout clock =>
      (* the form exists only while the checkout panel is open *)
      if State.checkoutOpen st then handlePlaceOrder clock st else (st, [])
  | CloseOrder => (State.setOrderPlaced None st, [])
  end.

(** A session: the events in the order they are handled, with the effects
    accumulated in that order. *)
Fixpoint session (st : State.t) (evs : list event) : State.t * list effect :=
  match evs with
  | [] => (st, [])
  | ev :: evs =>
      let '(st1, out1) := dispatch st ev in
      let '(st2, out2) := session st1 evs in
      (st2, (out1 ++ out2)%list)
  end.

(** The orders a list of effects hands out, oldest first. *)
Definition orders_of (out : list effect) : list Order.t :=
  omap (λ e, match e with Download _ o => Some o | Alert _ => None end) out.

(** The clock reading of an event that hands out an order. *)
Definition order_time (ev : event) (out : list effect) : list Z :=
  match ev, orders_of out with
  | SubmitCheckout clock, _ :: _ => [Date_now clock]
  | _, _ => []
  end.

(** The clock readings of the successful submissions of a session, oldest
    first. *)
Fixpoint order_times (st : State.t) (evs : list event) : list Z :=
  match evs with
  | [] => []
  | ev :: evs =>
      let '(st1, out1) := dispatch st ev in
      (order_time ev out1 ++ order_times st1 evs)%list
  end.

(** ** Persistence: reading the cart back *)

#[local] Set Warnings "-register-all".

Module Json.

(** The values [JSON.parse] produces.  Numbers are kept exact; the members
    of an object are kept in the order of the text. *)
Inductive value : Type :=
| Null
| Bool (b : bool)
| Number (q : Q)
| Str (s : string)
| Array (elements : list value)
| Object (members : list (string * value)).

Definition is_ws (c : ascii) : bool :=
  let n := N_of_ascii c in
  ((n =? 32) || (n =? 9) || (n =? 10) || (n =? 13))%N.

Fixpoint skip_ws (s : string) : string :=
  match s with
  | String c s' => if is_ws c then skip_ws s' else s
  | EmptyString => s
  end.

(** [strip p s]: what follows the prefix [p] of [s]. *)
Fixpoint strip (p s : string) : option string :=
  match p, s with
  | EmptyString, _ => Some s
  | String a p', String b s' => if Ascii.eqb a b then strip p' s' else None
  | String _ _, EmptyString => None
  end.

Definition digit_val (c : ascii) : option N :=
  let n := N_of_ascii c in
  if ((48 <=? n) && (n <=? 57))%N then Some (n - 48)%N else None.

Definition hex_val (c : ascii) : option N :=
  let n := N_of_ascii c in
  if ((48 <=? n) && (n <=? 57))%N then Some (n - 48)%N
  else if ((65 <=? n) && (n <=? 70))%N then Some (n - 55)%N
  else if ((97 <=? n) && (n <=? 102))%N then Some (n - 87)%N
  else None.

(** A run of decimal digits: its value on top of [acc], how many digits it
    has, and what follows it. *)
Fixpoint digits (acc : N) (count : nat) (s : string) : N * nat * string :=
  match s with
  | String c s' =>
      match digit_val c with
      | Some d => digits (10 * acc + d)%N (S count) s'
      | None => (acc, count, s)
      end
  | EmptyString => (acc, count, s)
  end.

(** [int]: a single [0], or a digit run that does not start with [0]. *)
Definition int_part (s : string) : option (N * string) :=
  match s with
  | String "0" s' => Some (0%N, s')
  | _ =>
      let '(n, count, rest) := digits 0 0 s in
      match count with O => None | S _ => Some (n, rest) end
  end.

(** [frac]: nothing, or a dot and at least one digit. *)
Definition frac_part (s : string) : option (N * nat * string) :=
  match s with
  | String "." s' =>
      let '(n, count, rest) := digits 0 0 s' in
      match count with O => None | S _ => Some (n, count, rest) end
  | _ => Some (0%N, O, s)
  end.

(** [exp]: nothing, or [e] or [E], an optional sign and at least one
    digit. *)
Definition exp_part (s : string) : option (Z * string) :=
  let signed (s' : string) :=
    let '(neg, s'') :=
      match s' with
      | String "-" t => (true, t)
      | String "+" t => (false, t)
      | _ => (false, s')
      end in
    let '(n, count, rest) := digits 0 0 s'' in
    match count with
    | O => None
    | S _ => Some (if neg then (- Z.of_N n)%Z else Z.of_N n, rest)
    end in
  match s with
  | String "e" s' | String "E" s' => signed s'
  | _ => Some (0%Z, s)
  end.

Definition number (s : string) : option (Q * string) :=
  let '(neg, s1) :=
    match s with
    | String "-" t => (true, t)
    | _ => (false, s)
    end in
  '(i, s2) ← int_part s1;
  '(f, flen, s3) ← frac_part s2;
  '(e, s4) ← exp_part s3;
  let mantissa := (Z.of_N i * 10 ^ Z.of_nat flen + Z.of_N f)%Z in
  let q := (inject_Z mantissa * Qpower 10 (e - Z.of_nat flen))%Q in
  Some (Qred (if neg then - q else q)%Q, s4).

(** The bytes (UTF-8) standing for the code unit of a [\uXXXX] escape. *)
Definition code_unit (n : N) : string :=
  if (n <? 128)%N then String (ascii_of_N n) EmptyString
  else if (n <? 2048)%N then
    String (ascii_of_N (192 + n / 64))
      (String (ascii_of_N (128 + n mod 64)) EmptyString)
  else
    String (ascii_of_N (224 + n / 4096))
      (String (ascii_of_N (128 + (n / 64) mod 64))
         (String (ascii_of_N (128 + n mod 64)) EmptyString)).

(** The double quote, which delimits string literals. *)
Definition quote : ascii := ascii_of_N 34.

(** The literal that denotes a string of plain characters. *)
Definition quoted (s : string) : string :=
  String quote (s +:+ String quote EmptyString).

(** The backslash, which starts an escape. *)
Definition backslash : ascii := ascii_of_N 92.

Definition escape (c : ascii) : option ascii :=
  if Ascii.eqb c quote then Some quote
  else if Ascii.eqb c backslash then Some backslash
  else match c with
       | "/"%char => Some "/"%char
       | "b"%char => Some (ascii_of_N 8)
       | "f"%char => Some (ascii_of_N 12)
       | "n"%char => Some (ascii_of_N 10)
       | "r"%char => Some (ascii_of_N 13)
       | "t"%char => Some (ascii_of_N 9)
       | _ => None
       end.

(** The characters of a string literal, after its opening quote. *)
Fixpoint chars (s : string) : option (string * string) :=
  match s with
  | EmptyString => None
  | String c rest =>
      if Ascii.eqb c quote then Some (EmptyString, rest)
      else if Ascii.eqb c backslash then
        match rest with
        | String "u" (String a (String b (String c' (String d rest')))) =>
            h3 ← hex_val a; h2 ← hex_val b; h1 ← hex_val c'; h0 ← hex_val d;
            '(body, rest'') ← chars rest';
            Some (code_unit (((h3 * 16 + h2) * 16 + h1) * 16 + h0)%N +:+ body,
                  rest'')
        | String e rest' =>
            c' ← escape e;
            '(body, rest'') ← chars rest';
            Some (String c' body, rest'')
        | EmptyString => None
        end
      else if (N_of_ascii c <? 32)%N then None
      else '(body, rest') ← chars rest; Some (String c body, rest')
  end.

Section Composite.

(** The parser of one value, at the nesting depth below. *)
Variable parse_value : string → option (value * string).

(** The elements of an array after the first one: [, value]* and the
    closing bracket. *)
Fixpoint more_elements (fuel : nat) (acc : list value) (s : string)
  : option (list value * string) :=
  match fuel with
  | O => None
  | S fuel =>
      match skip_ws s with
      | String "]" rest => Some (reverse acc, rest)
      | String "," rest =>
          '(v, rest') ← parse_value rest;
          more_elements fuel (v :: acc) rest'
      | _ => None
      end
  end.

Definition elements (s : string) : option (list value * string) :=
  match skip_ws s with
  | String "]" rest => Some ([], rest)
  | _ =>
      '(v, rest) ← parse_value s;
      more_elements (String.length rest) [v] rest
  end.

(** One member: a string literal, a colon and a value. *)
Definition member (s : string) : option (string * value * string) :=
  match skip_ws s with
  | String c rest =>
      if Ascii.eqb c quote then
        '(k, rest1) ← chars rest;
        match skip_ws rest1 with
        | String ":" rest2 =>
            '(v, rest3) ← parse_value rest2;
            Some (k, v, rest3)
        | _ => None
        end
      else None
  | EmptyString => None
  end.

Fixpoint more_members (fuel : nat) (acc : list (string * value)) (s : string)
  : option (list (string * value) * string) :=
  match fuel with
  | O => None
  | S fuel =>
      match skip_ws s with
      | String "}" rest => Some (reverse acc, rest)
      | String "," rest =>
          '(k, v, rest') ← member rest;
          more_members fuel ((k, v) :: acc) rest'
      | _ => None
      end
  end.

Definition members (s : string) : option (list (string * value) * string) :=
  match skip_ws s with
  | String "}" rest => Some ([], rest)
  | _ =>
      '(k, v, rest) ← member s;
      more_members (String.length rest) [(k, v)] rest
  end.

End Composite.

(** One value with the white space before it; [depth] bounds the nesting
    of arrays and objects. *)
Fixpoint parse_value (depth : nat) (s : string) : option (value * string) :=
  match depth with
  | O => None
  | S depth =>
      match skip_ws s with
      | String "{" rest =>
          '(ms, rest') ← members (parse_value depth) rest;
          Some (Object ms, rest')
      | String "[" rest =>
          '(vs, rest') ← elements (parse_value depth) rest;
          Some (Array vs, rest')
      | String "n" _ as s' => rest ← strip "null" s'; Some (Null, rest)
      | String "t" _ as s' => rest ← strip "true" s'; Some (Bool true, rest)
      | String "f" _ as s' => rest ← strip "false" s'; Some (Bool false, rest)
      | String c rest as s' =>
          if Ascii.eqb c quote then
            '(str, rest') ← chars rest;
            Some (Str str, rest')
          else '(q, rest') ← number s'; Some (Number q, rest')
      | EmptyString => None
      end
  end.

(** [JSON.parse(text)]: the value, or [None] where it throws a
    [SyntaxError].  A text of [n] characters nests less than [n + 1]
    deep. *)
Definition parse (text : string) : option value :=
  '(v, rest) ← parse_value (S (String.length text)) text;
  match skip_ws rest with
  | EmptyString => Some v
  | String _ _ => None
  end.

End Json.

(** What [localStorage.getItem('cookie_shop_cart')] does: it throws (storage
    disabled), or returns [null] (no such key), or returns the stored text. *)
Inductive slot : Type :=
| Unavailable
| Missing
| Holds (raw : string).

(** The initializer of the [cart] state cell. *)
Definition load (storage : slot) : Json.value :=
  match storage with
  | Unavailable => Json.Object []
  | Missing => Json.Object []
  | Holds raw =>
      if String.eqb raw EmptyString then Json.Object []
      else match Json.parse raw with
           | Some v => v
           | None => Json.Object []
           end
  end.

(** The integer a JSON number stands for, if it is one. *)
Definition integer_of (q : Q) : option Z :=
  if Pos.eqb (Qden (Qred q)) 1 then Some (Qnum (Qred q)) else None.

(** A value is a productId → quantity mapping when it is an object whose
    members are all integers; a key written twice keeps its last value. *)
Definition mapping_of (v : Json.value) : option (gmap string Z) :=
  match v with
  | Json.Object members =>
      entries ← mapM (λ '(k, x),
                        match x with
                        | Json.Number q => n ← integer_of q; Some (k, n)
                        | _ => None
                        end) members;
      Some (list_to_map (reverse entries))
  | _ => None
  end.

(** The state of the component when it is mounted with the given cart: the
    initial values of its state cells. *)
Definition initial (cart : gmap string Z) : State.t :=
  {| State.products := SAMPLE_PRODUCTS;
     State.query := EmptyString;
     State.category := "All";
     State.sort := "featured";
     State.cart := cart;
     State.checkoutOpen := false;
     State.orderInfo := OrderInfo.mk EmptyString EmptyString EmptyString;
     State.orderPlaced := None |}.

(** A session in which a customer fills in the form and checks out twice,
    the submissions reading [t1] and [t2] on the clock. *)
Definition two_checkouts (t1 t2 : Z) : list event :=
  [ ChangeOrderInfo (OrderInfo.mk "Jo" "j@x.com" "1 St");
    ClickAdd "cookies-01" 1;
    OpenCheckout;
    SubmitCheckout (mkClock t1 "2026-01-01T00:00:00.000Z");
    ClickAdd "cookies-02" 3;
    OpenCheckout;
    SubmitCheckout (mkClock t2 "2026-01-01T00:00:00.000Z") ].

(** ** The quantities and predicates the specification names *)

(** The price the catalog resolves a product id to, and 0 for an id it does
    not resolve. *)
Definition price_or_zero (catalog : list Product.t) (id : string) : Q :=
  match find_product catalog id with
  | Some p => Product.price p
  | None => 0%Q
  end.

(** The sum of quantity × price over the entries of the cart. *)
Definition total_spec (cart : gmap string Z) (catalog : list Product.t) : Q :=
  foldr (λ '(id, qty) acc, (inject_Z qty * price_or_zero catalog id + acc)%Q)
        0%Q (map_to_list cart).

(** The sum of quantity × unitPrice over the line items of an order. *)
Definition items_sum (items : list Item.t) : Q :=
  foldr (λ it acc, (inject_Z (Item.qty it) * Item.unitPrice it + acc)%Q)
        0%Q items.

(** Customer information is complete when its three fields are non-empty. *)
Definition complete (info : OrderInfo.t) : Prop :=
  OrderInfo.name info ≠ EmptyString
  ∧ OrderInfo.email info ≠ EmptyString
  ∧ OrderInfo.address info ≠ EmptyString.


(** An ASCII capital letter. *)
Definition is_upper (c : ascii) : Prop :=
  (65 ≤ N_of_ascii c ∧ N_of_ascii c ≤ 90)%N.

(** [small_of a b]: [a] is one of the capitals A to Z (codes 65 to 90) and
    [b] is the small letter of the same name, which stands 32 places
    further in the code table (a to z, codes 97 to 122). *)
Definition small_of (a b : ascii) : Prop :=
  (65 ≤ N_of_ascii a)%N ∧ (N_of_ascii a ≤ 90)%N
  ∧ N_of_ascii b = (N_of_ascii a + 32)%N.

(** Two characters that are the same up to the case of a letter: the same
    character, or a capital and its small letter, either way round. *)
Inductive same_char : ascii → ascii → Prop :=
| same_char_eq c : same_char c c
| same_char_lower a b : small_of a b → same_char a b
| same_char_upper a b : small_of a b → same_char b a.

(** A text of ASCII characters only (codes below 128): the texts on which
    [String.prototype.toLowerCase] changes nothing but the capitals A to
    Z. *)
Fixpoint ascii_text (s : string) : Prop :=
  match s with
  | EmptyString => True
  | String c s' => (N_of_ascii c < 128)%N ∧ ascii_text s'
  end.

(** A catalog whose names and descriptions are ASCII texts. *)
Definition ascii_catalog (catalog : list Product.t) : Prop :=
  ∀ p, p ∈ catalog →
       ascii_text (Product.name p) ∧ ascii_text (Product.desc p).

(** Two texts that are the same up to case, character by character. *)
Inductive same_text : string → string → Prop :=
| same_text_nil : same_text EmptyString EmptyString
| same_text_cons a b s t :
    same_char a b → same_text s t → same_text (String a s) (String b t).

(** [text] contains [search] as a case-insensitive substring. *)
Definition contains_ci (text search : string) : Prop :=
  ∃ before found after : string,
    text = before +:+ found +:+ after ∧ same_text found search.

(** The products a query selects: the search text occurs in the name or in
    the description, and the category is the selected one unless the
    selection is "All". *)
Definition selected (query category : string) (p : Product.t) : Prop :=
  (contains_ci (Product.name p) query ∨ contains_ci (Product.desc p) query)
  ∧ (category = "All" ∨ Product.category p = category).

(** [keeps P l r]: [r] is [l] without the elements that fail [P], the others
    in the order and number [l] has them. *)
Inductive keeps {A : Type} (P : A → Prop) : list A → list A → Prop :=
| keeps_nil : keeps P [] []
| keeps_take x l r : P x → keeps P l r → keeps P (x :: l) (x :: r)
| keeps_drop x l r : ¬ P x → keeps P l r → keeps P (x :: l) r.

(** The products of [l] at one price, in the order [l] has them. *)
Definition at_price (v : Q) (l : list Product.t) : list Product.t :=
  List.filter (λ p, Qeq_bool (Product.price p) v) l.

(** [out] is [base] put in the order [le] of the prices, products of equal
    price staying in the relative order [base] has them. *)
Definition stably_ordered (le : Q → Q → Prop) (base out : list Product.t)
  : Prop :=
  out ≡ₚ base
  ∧ StronglySorted (λ a b, le (Product.price a) (Product.price b)) out
  ∧ ∀ v : Q, at_price v out = at_price v base.

(** ** The rest of the component *)

(** [Object.keys(o)] of an object used as a map. *)
Definition Object_keys (o : gmap string Z) : list string :=
  (map_to_list o).*1.

(** [Object.keys(cart).length === 0], the test behind "Your cart is
    empty." *)
Definition cart_shown_empty (cart : gmap string Z) : bool :=
  Nat.eqb (length (Object_keys cart)) 0.

(** [new Set(xs)] lists each value once, at its first occurrence. *)
Fixpoint Set_of (seen xs : list string) : list string :=
  match xs with
  | [] => []
  | x :: xs =>
      if bool_decide (x ∈ seen) then Set_of seen xs
      else x :: Set_of (x :: seen) xs
  end.

(** [categories]: the options of the category selector. *)
Definition categories (products : list Product.t) : list string :=
  "All" :: Set_of [] (List.map Product.category products).

(** *** Writing the cart *)

Module Stringify.

(** A hexadecimal digit, in lower case. *)
Definition hex_digit (n : N) : ascii :=
  if (n <? 10)%N then ascii_of_N (48 + n) else ascii_of_N (87 + n).

(** How [JSON.stringify] writes one character of a string: the quote, the
    backslash and the control characters are escaped. *)
Definition quote_char (c : ascii) : string :=
  let n := N_of_ascii c in
  let esc (e : ascii) := String Json.backslash (String e EmptyString) in
  if (n =? 8)%N then esc "b"%char
  else if (n =? 9)%N then esc "t"%char
  else if (n =? 10)%N then esc "n"%char
  else if (n =? 12)%N then esc "f"%char
  else if (n =? 13)%N then esc "r"%char
  else if (n =? 34)%N then esc Json.quote
  else if (n =? 92)%N then esc Json.backslash
  else if (n <? 32)%N then
    String Json.backslash
      (String "u" (String "0" (String "0"
         (String (hex_digit (n / 16))
            (String (hex_digit (n mod 16)) EmptyString)))))
  else String c EmptyString.

Fixpoint quote_body (s : string) : string :=
  match s with
  | EmptyString => EmptyString
  | String c s' => quote_char c +:+ quote_body s'
  end.

(** The string literal that stands for [s]. *)
Definition quote_string (s : string) : string :=
  String Json.quote (quote_body s +:+ String Json.quote EmptyString).

(** One member of the object: the key, a colon and the quantity. *)
Definition member (e : string * Z) : string :=
  quote_string e.1 +:+ ":" +:+ Js.number_to_string e.2.

(** The members after the first one, each behind a comma. *)
Fixpoint more_members (es : list (string * Z)) : string :=
  match es with
  | [] => EmptyString
  | e :: es => "," +:+ member e +:+ more_members es
  end.

Definition object (es : list (string * Z)) : string :=
  match es with
  | [] => "{}"
  | e :: es => "{" +:+ member e +:+ more_members es +:+ "}"
  end.

End Stringify.

(** [JSON.stringify(cart)], the text the effect writes under
    [cookie_shop_cart]. *)
Definition JSON_stringify (cart : gmap string Z) : string :=
  Stringify.object (Js.Object_entries cart).

(** Whether handling [ev] replaces the [cart] object: every call of
    [setCart] does, and a submission calls it when it succeeds. *)
Definition replaces_cart (ev : event) (out : list effect) : bool :=
  match ev with
  | ClickAdd _ _ | ClickQty _ _ | ClickClear => true
  | SubmitCheckout _ => match orders_of out with [] => false | _ :: _ => true end
  | _ => false
  end.

(** A session together with the text kept under [cookie_shop_cart]: the
    effect [useEffect(..., [cart])] writes the cart each time the [cart]
    object is replaced. *)
Fixpoint persisted_session (st : State.t) (stored : string) (evs : list event)
  : State.t * string :=
  match evs with
  | [] => (st, stored)
  | ev :: evs =>
      let '(st1, out1) := dispatch st ev in
      let stored1 :=
        if replaces_cart ev out1 then JSON_stringify (State.cart st1)
        else stored in
      persisted_session st1 stored1 evs
  end.

(** The component once mounted on a stored cart: the state cells at their
    initial values and, the effect having run once, the cart written
    back. *)
Definition mount (cart : gmap string Z) : State.t * string :=
  (initial cart, JSON_stringify cart).

(** *** The events the page can emit *)

(** [one_field old new]: [new] is [old] with one field of the form
    retyped. *)
Definition one_field (old new : OrderInfo.t) : Prop :=
  (OrderInfo.email new = OrderInfo.email old
   ∧ OrderInfo.address new = OrderInfo.address old)
  ∨ (OrderInfo.name new = OrderInfo.name old
     ∧ OrderInfo.address new = OrderInfo.address old)
  ∨ (OrderInfo.name new = OrderInfo.name old
     ∧ OrderInfo.email new = OrderInfo.email old).

(** [emits st ev]: the page rendered from [st] has a control that sends
    [ev]. *)
Inductive emits (st : State.t) : event → Prop :=
| emits_query v : emits st (ChangeQuery v)
| emits_category v :
    v ∈ categories (State.products st) → emits st (ChangeCategory v)
| emits_sort v :
    v ∈ ["featured"; "price-asc"; "price-desc"] → emits st (ChangeSort v)
| emits_add p qty :
    p ∈ filteredProducts (State.products st) (State.query st)
          (State.category st) (State.sort st) →
    qty = 1 ∨ qty = 3 →
    emits st (ClickAdd (Product.id p) qty)
| emits_less id qty :
    State.cart st !! id = Some qty → emits st (ClickQty id (qty - 1))
| emits_more id qty :
    State.cart st !! id = Some qty → emits st (ClickQty id (qty + 1))
| emits_clear : emits st ClickClear
| emits_toggle : emits st ToggleCheckout
| emits_open : emits st OpenCheckout
| emits_close : State.checkoutOpen st = true → emits st CloseCheckout
| emits_info v :
    State.checkoutOpen st = true →
    one_field (State.orderInfo st) v →
    emits st (ChangeOrderInfo v)
| emits_submit clock :
    State.checkoutOpen st = true → emits st (SubmitCheckout clock)
| emits_close_order :
    is_Some (State.orderPlaced st) → emits st CloseOrder.

(** A session of the page: each event is one the page emits in the state
    the events before it have led to. *)
Fixpoint page_session (st : State.t) (evs : list event) : Prop :=
  match evs with
  | [] => True
  | ev :: evs => emits st ev ∧ page_session (dispatch st ev).1 evs
  end.

(** The CartEntry invariant in full: every key is the id of a product of
    the catalog and every quantity is at least 1. *)
Definition cart_entries_valid (products : list Product.t)
    (cart : gmap string Z) : Prop :=
  ∀ (id : string) (q : Z),
    cart !! id = Some q → 1 ≤ q ∧ is_Some (find_product products id).

(** The characters that can follow a member of the written object. *)
Definition closes (c : ascii) : Prop := c = ","%char ∨ c = "}"%char.

(** The value that stands for an integer quantity. *)
Definition quantity_value (e : string * Z) : string * Json.value :=
  (e.1, Json.Number (inject_Z e.2)).

(** A visit of the page: two products are put in the cart from their
    cards, one line is reduced in the cart panel, and the list is
    narrowed to a category before a third product is added. *)
Definition a_visit : list event :=
  [ ClickAdd "cookies-01" 1;
    ClickAdd "cookies-03" 3;
    ClickQty "cookies-03" (3 - 1);
    ChangeCategory "Classic";
    ClickAdd "cookies-04" 3;
    ClickQty "cookies-01" (1 - 1) ].

(** The visit carried on to a purchase: the checkout panel is opened, the
    form is filled in field by field and submitted. *)
Definition a_purchase : list event :=
  (a_visit ++
   [ OpenCheckout;
     ChangeOrderInfo (OrderInfo.mk "Jo" EmptyString EmptyString);
     ChangeOrderInfo (OrderInfo.mk "Jo" "j@x.com" EmptyString);
     ChangeOrderInfo (OrderInfo.mk "Jo" "j@x.com" "1 St");
     SubmitCheckout (mkClock 1712000000000 "2024-04-01T19:33:20.000Z") ])%list.

(** ** The cart as the engine holds it

    The cart is a plain JavaScript object: it inherits from
    [Object.prototype], and its values are IEEE 754 doubles.  [Cart] above
    is the mapping the specification speaks of; the definitions below keep
    what a plain object adds to it: the inherited properties that [o[id]]
    reads when [id] is no key of the object itself, the setter behind
    [__proto__], and the rounding of sums beyond 2^53. *)

Module Double.

(** The doubles that hold an integer, with the two infinities and NaN.
    Every double of magnitude 2^53 or more holds an integer. *)
Inductive t : Type :=
| Int (n : Z)
| Inf (negative : bool)
| NaN.

(** The integer the exact result [n] is rounded to: the nearest one that
    has 53 significant bits, the even one of two that are equally near. *)
Definition round (n : Z) : Z :=
  let a := Z.abs n in
  if a <=? 2 ^ 53 then n
  else
    let e := Z.log2 a - 52 in
    let q := a / 2 ^ e in
    let r := a mod 2 ^ e in
    let half := 2 ^ (e - 1) in
    let q' :=
      if r <? half then q
      else if half <? r then q + 1
      else if Z.even q then q else q + 1 in
    Z.sgn n * (q' * 2 ^ e).

(** The double of an exact integer result; beyond the largest double it is
    an infinity. *)
Definition of_Z (n : Z) : t :=
  let r := round n in
  if Z.abs r <? 2 ^ 1024 then Int r else Inf (n <? 0).

(** [x + y] *)
Definition add (x y : t) : t :=
  match x, y with
  | NaN, _ | _, NaN => NaN
  | Inf a, Inf b => if Bool.eqb a b then Inf a else NaN
  | Inf a, Int _ | Int _, Inf a => Inf a
  | Int a, Int b => of_Z (a + b)
  end.

(** [!x]: the falsy numbers are 0 and NaN. *)
Definition falsy (x : t) : bool :=
  match x with
  | Int n => n =? 0
  | Inf _ => false
  | NaN => true
  end.

(** [x <= 0] *)
Definition le0 (x : t) : bool :=
  match x with
  | Int n => n <=? 0
  | Inf negative => negative
  | NaN => false
  end.

(** A quantity of at least 1. *)
Definition at_least_one (x : t) : Prop :=
  match x with
  | Int n => 1 ≤ n
  | Inf negative => negative = false
  | NaN => False
  end.

End Double.

Module Obj.

(** A string the code has built by [+]: its pieces in order, each one
    either given characters or the decimal form of a number. *)
Inductive piece : Type :=
| Chars (s : string)
| Shown (x : Double.t).

(** The values a cart can hold: the numbers, and the strings that [+]
    makes of a number and something that is not one. *)
Inductive value : Type :=
| Num (x : Double.t)
| Str (pieces : list piece).

(** The object itself: the properties of its own. *)
Abbreviation t := (gmap string value).

(** What [+] makes of the object or function that [Object.prototype] holds
    under [id], for the properties every plain object inherits. *)
Definition inherited (id : string) : option string :=
  if String.eqb id "__proto__" then Some "[object Object]"
  else if String.eqb id "constructor"
  then Some "function Object() { [native code] }"
  else if bool_decide
            (id ∈ ["toString"; "toLocaleString"; "valueOf"; "hasOwnProperty";
                   "isPrototypeOf"; "propertyIsEnumerable";
                   "__defineGetter__"; "__defineSetter__";
                   "__lookupGetter__"; "__lookupSetter__"])
  then Some ("function " +:+ id +:+ "() { [native code] }")
  else None.

(** What [o[id]] reads. *)
Inductive read : Type :=
| Own (v : value)
| Inherited (text : string)
| Undefined.

Definition get (id : string) (o : t) : read :=
  match o !! id with
  | Some v => Own v
  | None =>
      match inherited id with
      | Some text => Inherited text
      | None => Undefined
      end
  end.

(** [o[id] = v], for a number or a string [v]: a property of the object
    itself is written or created, except that [__proto__], when the object
    has no such property of its own, reaches the setter of
    [Object.prototype], which ignores values that are not objects. *)
Definition set (id : string) (v : value) (o : t) : t :=
  if String.eqb id "__proto__" && bool_decide (o !! id = None) then o
  else <[id := v]> o.

Definition empty_piece (p : piece) : bool :=
  match p with
  | Chars s => String.eqb s EmptyString
  | Shown _ => false
  end.

(** [(r || 0) + qty] *)
Definition or_zero_plus (r : read) (qty : Double.t) : value :=
  match r with
  | Undefined => Num (Double.add (Double.Int 0) qty)
  | Own (Num x) =>
      Num (Double.add (if Double.falsy x then Double.Int 0 else x) qty)
  | Own (Str pieces) =>
      if forallb empty_piece pieces
      then Num (Double.add (Double.Int 0) qty)
      else Str (pieces ++ [Shown qty])
  | Inherited text => Str [Chars text; Shown qty]
  end.

(** [addToCart(productId, qty = 1)]: the updater passed to [setCart]. *)
Definition addToCart (productId : string) (qty : Double.t) (prev : t) : t :=
  let next := prev in
  set productId (or_zero_plus (get productId next) qty) next.

(** [updateQty(productId, qty)]: the updater passed to [setCart]. *)
Definition updateQty (productId : string) (qty : Double.t) (prev : t) : t :=
  let next := prev in
  if Double.le0 qty then delete productId next
  else set productId (Num qty) next.

(** [clearCart()] *)
Definition clearCart : t := ∅.

(** [a + b] on the values of a cart. *)
Definition plus (a b : value) : value :=
  match a, b with
  | Num x, Num y => Num (Double.add x y)
  | Num x, Str q => Str (Shown x :: q)
  | Str p, Num y => Str (p ++ [Shown y])
  | Str p, Str q => Str (p ++ q)
  end.

(** [itemsInCart()] *)
Definition itemsInCart (cart : t) : value :=
  foldl plus (Num (Double.Int 0)) (map_to_list cart).*2.

(** The object that holds a mapping of integer quantities. *)
Definition of_cart (cart : gmap string Z) : t :=
  (λ n, Num (Double.Int n)) <$> cart.

(** The CartEntry invariant on the object: every value it holds is a
    number, and at least 1. *)
Definition quantities_positive (o : t) : Prop :=
  ∀ (id : string) (v : value),
    o !! id = Some v → ∃ x, v = Num x ∧ Double.at_least_one x.

(** The intents that change the cart, with integer quantities. *)
Definition step (o : t) (i : Cart.intent) : t :=
  match i with
  | Cart.Add id q => addToCart id (Double.of_Z q) o
  | Cart.SetQuantity id q => updateQty id (Double.of_Z q) o
  | Cart.Clear => clearCart
  end.

Definition run (intents : list Cart.intent) (o : t) : t := foldl step o intents.

(** A product id that is not the name of a property of
    [Object.prototype]. *)
Definition plain_key (id : string) : Prop := inherited id = None.

(** [add] is called with a positive quantity for a product id that is a
    plain key. *)
Definition admissible (i : Cart.intent) : Prop :=
  match i with
  | Cart.Add id q => 0 < q ∧ plain_key id
  | Cart.SetQuantity _ _ | Cart.Clear => True
  end.

End Obj.

(** The sum of the magnitudes of the quantities of a cart: while it stays
    within 2^53, every sum the code forms over the cart is exact. *)
Definition magnitude (cart : gmap string Z) : Z :=
  foldr (λ v acc, Z.abs v + acc) 0 (map_to_list cart).*2.

(** * Properties *)

(** ** Cart store *)

Section CartStore.

Implicit Types (cart : gmap string Z) (id : string) (q : Z).

Lemma or_zero_default (x : option Z) : Js.or_zero x = default 0 x.
Proof.
  destruct x as [v|]; simpl; [|reflexivity].
  destruct (Z.eqb_spec v 0); congruence.
Qed.

Lemma addToCart_lookup cart id q :
  Cart.addToCart id q cart !! id = Some (default 0 (cart !! id) + q).
Proof.
  unfold Cart.addToCart. cbv zeta.
  rewrite lookup_insert_eq, or_zero_default. reflexivity.
Qed.

Lemma addToCart_lookup_ne cart id k q :
  k ≠ id → Cart.addToCart id q cart !! k = cart !! k.
Proof. intros Hne. unfold Cart.addToCart. cbv zeta. by rewrite lookup_insert_ne. Qed.

Lemma updateQty_lookup_ne cart id k q :
  k ≠ id → Cart.updateQty id q cart !! k = cart !! k.
Proof.
  intros Hne. unfold Cart.updateQty. cbv zeta.
  destruct (Z.leb_spec q 0).
  - by rewrite lookup_delete_ne.
  - by rewrite lookup_insert_ne.
Qed.

(** C10: [add(cart, p, q)] and [setQuantity(cart, p, q)] change at most the
    entry of [p]: at every other key the result agrees with [cart]. *)
Theorem cart_update_frame cart (p k : string) q :
  k ≠ p →
  Cart.addToCart p q cart !! k = cart !! k
  ∧ Cart.updateQty p q cart !! k = cart !! k.
Proof.
  intros Hne. split.
  - by apply addToCart_lookup_ne.
  - by apply updateQty_lookup_ne.
Qed.

Lemma cart_update_frame_witness :
  Cart.addToCart "cookies-01" 3 {[ "cookies-02" := 2 ]} !! "cookies-02" = Some 2
  ∧ Cart.updateQty "cookies-01" 3 {[ "cookies-02" := 2 ]} !! "cookies-02" = Some 2.
Proof.
  destruct (cart_update_frame {[ "cookies-02" := 2 ]} "cookies-01" "cookies-02" 3)
    as [Hadd Hset]; [discriminate|].
  rewrite Hadd, Hset. split; reflexivity.
Defined.

(** When adding leaves the cart as it was. *)
Lemma addToCart_fixed cart id q :
  Cart.addToCart id q cart = cart ↔ q = 0 ∧ is_Some (cart !! id).
Proof.
  split.
  - intros Heq. pose proof (addToCart_lookup cart id q) as Hl.
    rewrite Heq in Hl. destruct (cart !! id) as [v|] eqn:Hv; [|discriminate].
    simpl in Hl. split; [|by eexists]. injection Hl. lia.
  - intros [-> [v Hv]]. apply map_eq. intros k.
    destruct (decide (k = id)) as [->|Hne].
    + rewrite addToCart_lookup, Hv. simpl. f_equal. lia.
    + by apply addToCart_lookup_ne.
Qed.

Lemma step_quantities_positive cart (i : Cart.intent) :
  Cart.admissible i →
  Cart.quantities_positive cart →
  Cart.quantities_positive (Cart.step cart i).
Proof.
  intros Hadm Hinv k v. destruct i as [id q|id q|]; simpl in *.
  - destruct (decide (k = id)) as [->|Hne].
    + rewrite addToCart_lookup. intros [= <-].
      destruct (cart !! id) as [w|] eqn:Hw; simpl; [|lia].
      specialize (Hinv _ _ Hw). lia.
    + rewrite addToCart_lookup_ne by done. apply Hinv.
  - destruct (decide (k = id)) as [->|Hne].
    + unfold Cart.updateQty. cbv zeta. destruct (Z.leb_spec q 0).
      * by rewrite lookup_delete_eq.
      * rewrite lookup_insert_eq. intros [= <-]. lia.
    + rewrite updateQty_lookup_ne by done. apply Hinv.
  - unfold Cart.clearCart. by rewrite lookup_empty.
Qed.

Lemma run_quantities_positive (intents : list Cart.intent) cart :
  Forall Cart.admissible intents →
  Cart.quantities_positive cart →
  Cart.quantities_positive (Cart.run intents cart).
Proof.
  unfold Cart.run. revert cart.
  induction intents as [|i intents IH]; intros cart Hadm Hinv; [done|].
  inversion Hadm as [|?? Hi Hrest]; subst. simpl.
  apply IH; [done|]. by apply step_quantities_positive.
Qed.

End CartStore.

(** ** Totals *)

Section Totals.

Implicit Types (cart : gmap string Z) (catalog : list Product.t).

Local Open Scope Q_scope.

Lemma Qplus_nonneg (a b : Q) : 0 <= a → 0 <= b → 0 <= a + b.
Proof.
  intros Ha Hb. change 0 with (0 + 0).
  by apply Qplus_le_compat.
Qed.

(** The loop of [cartTotal], started from any partial sum. *)
Lemma cartTotal_loop catalog (entries : list (string * Z)) (sum : Q) :
  foldl (λ (sum : Q) '(id, qty),
           sum + match find_product catalog id with
                 | Some p => Product.price p * inject_Z qty
                 | None => 0
                 end) sum entries
  == sum + foldr (λ '(id, qty) acc,
                    inject_Z qty * price_or_zero catalog id + acc) 0 entries.
Proof.
  revert sum. induction entries as [|[id qty] entries IH]; intros sum; simpl.
  - ring.
  - rewrite IH. unfold price_or_zero.
    destruct (find_product catalog id); ring.
Qed.

Lemma cartTotal_total_spec catalog cart :
  cartTotal catalog cart == total_spec cart catalog.
Proof.
  unfold cartTotal, total_spec, Js.Object_entries.
  rewrite cartTotal_loop. ring.
Qed.

(** The sum does not depend on the order in which the entries of the cart
    are enumerated. *)
Lemma total_any_order catalog (entries entries' : list (string * Z)) :
  entries ≡ₚ entries' →
  foldl (λ (sum : Q) '(id, qty),
           sum + match find_product catalog id with
                 | Some p => Product.price p * inject_Z qty
                 | None => 0
                 end) 0 entries
  == foldl (λ (sum : Q) '(id, qty),
              sum + match find_product catalog id with
                    | Some p => Product.price p * inject_Z qty
                    | None => 0
                    end) 0 entries'.
Proof.
  intros Hperm. rewrite !cartTotal_loop. apply Qplus_inj_l.
  induction Hperm as [|[id qty] l l' _ IH|[id qty] [id' qty'] l|l l' l'' _ IH _ IH'];
    simpl.
  - reflexivity.
  - by rewrite IH.
  - ring.
  - by rewrite IH.
Qed.

Lemma price_or_zero_nonneg catalog id :
  (∀ p, p ∈ catalog → 0 <= Product.price p) →
  0 <= price_or_zero catalog id.
Proof.
  intros Hprices. unfold price_or_zero, find_product.
  destruct (List.find _ catalog) as [p|] eqn:Hfind; [|apply Qle_refl].
  apply Hprices. apply List.find_some in Hfind as [Hin _].
  by apply list_elem_of_In.
Qed.

Lemma total_spec_nonneg catalog cart :
  (∀ p, p ∈ catalog → 0 <= Product.price p) →
  (∀ (id : string) (q : Z), cart !! id = Some q → (0 ≤ q)%Z) →
  0 <= total_spec cart catalog.
Proof.
  intros Hprices Hqty. unfold total_spec.
  assert (Hall : ∀ id q, (id, q) ∈ map_to_list cart → (0 ≤ q)%Z).
  { intros id q Hin. apply (Hqty id). by apply elem_of_map_to_list. }
  induction (map_to_list cart) as [|[id q] entries IH]; simpl.
  - apply Qle_refl.
  - apply Qplus_nonneg.
    + apply Qmult_le_0_compat.
      * change 0 with (inject_Z 0). rewrite <- Zle_Qle.
        apply (Hall id). left.
      * by apply price_or_zero_nonneg.
    + apply IH. intros id' q' Hin. apply (Hall id'). by right.
Qed.

(** C3, amended: for every cart and catalog, [total(cart, catalog)] is the
    sum over the cart entries of quantity × the matching product's price,
    with 0 for an entry whose id the catalog does not resolve; the
    computation is total; and the result is not negative when no price of
    the catalog and no quantity of the cart is negative. *)
Theorem cartTotal_sum catalog cart :
  cartTotal catalog cart == total_spec cart catalog
  ∧ ((∀ p, p ∈ catalog → 0 <= Product.price p) →
     (∀ (id : string) (q : Z), cart !! id = Some q → (0 ≤ q)%Z) →
     0 <= cartTotal catalog cart).
Proof.
  split; [apply cartTotal_total_spec|].
  intros Hprices Hqty. rewrite cartTotal_total_spec.
  by apply total_spec_nonneg.
Qed.

Lemma SAMPLE_PRODUCTS_prices p :
  p ∈ SAMPLE_PRODUCTS → 0 <= Product.price p.
Proof.
  unfold SAMPLE_PRODUCTS. rewrite !elem_of_cons, elem_of_nil.
  intros [->|[->|[->|[->|[]]]]]; simpl; discriminate.
Qed.

Lemma cartTotal_sum_witness :
  0 <= cartTotal SAMPLE_PRODUCTS {[ "cookies-01" := 2%Z ]}.
Proof.
  apply (cartTotal_sum SAMPLE_PRODUCTS {[ "cookies-01" := 2%Z ]}).
  - exact SAMPLE_PRODUCTS_prices.
  - intros id q Hq. apply lookup_singleton_Some in Hq as [_ <-]. lia.
Defined.

(** C3 as stated fails: a cart that holds a negative quantity has a negative
    total. *)
Lemma cartTotal_negative :
  cartTotal SAMPLE_PRODUCTS {[ "cookies-01" := (-1)%Z ]} == - (9 # 2)
  ∧ cartTotal SAMPLE_PRODUCTS {[ "cookies-01" := (-1)%Z ]} < 0.
Proof. split; vm_compute; reflexivity. Qed.

End Totals.

(** ** Checkout *)

Section Checkout.

Implicit Types (st : State.t) (clock : Clock) (cart : gmap string Z).





(** The loop of [itemsInCart], started from any partial count. *)
Lemma itemsInCart_loop (values : list Z) (a : Z) :
  Forall (λ v, 1 ≤ v) values →
  a + Z.of_nat (length values) ≤ foldl (λ a b, a + b) a values.
Proof.
  revert a. induction values as [|v values IH]; intros a Hall; simpl; [lia|].
  inversion Hall as [|?? Hv Hrest]; subst.
  specialize (IH (a + v) Hrest). lia.
Qed.

(** Under the CartEntry invariant a cart with a key has a positive count. *)
Lemma itemsInCart_positive cart :
  Cart.quantities_positive cart → cart ≠ ∅ → 0 < itemsInCart cart.
Proof.
  intros Hinv Hne. unfold itemsInCart, Js.Object_values, Js.Object_entries.
  assert (Hall : Forall (λ v, 1 ≤ v) (map_to_list cart).*2).
  { apply Forall_forall. intros v Hv.
    apply list_elem_of_fmap in Hv as [[id q] [-> Hin]].
    apply elem_of_map_to_list in Hin. by apply (Hinv id). }
  pose proof (itemsInCart_loop _ 0 Hall) as Hsum.
  assert (map_to_list cart ≠ []) as Hlist.
  { intros Hnil. by apply map_to_list_empty_iff in Hnil. }
  destruct (map_to_list cart) as [|e entries]; [done|].
  simpl in *. lia.
Qed.



Lemma or_zeroQ_price (catalog : list Product.t) (id : string) :
  (Js.or_zeroQ (Product.price <$> find_product catalog id)
   == price_or_zero catalog id)%Q.
Proof.
  unfold price_or_zero. destruct (find_product catalog id) as [p|]; simpl.
  - destruct (Qeq_bool (Product.price p) 0) eqn:Hzero; [|reflexivity].
    apply Qeq_bool_eq in Hzero. by rewrite Hzero.
  - reflexivity.
Qed.

Lemma build_order_items_sum clock st :
  (items_sum (Order.items (build_order clock st))
   == total_spec (State.cart st) (State.products st))%Q.
Proof.
  unfold build_order, total_spec, Js.Object_entries. simpl.
  induction (map_to_list (State.cart st)) as [|[id qty] entries IH]; simpl.
  - reflexivity.
  - rewrite IH, or_zeroQ_price. reflexivity.
Qed.



(** The end-to-end scenario of the specification, on the shop's catalog:
    two of the first cookie, checked out by Jo. *)
Example checkout_scenario :
  let st := State.setOrderInfo (OrderInfo.mk "Jo" "j@x.com" "1 St")
              (State.setCheckoutOpen (λ _, true)
                 (initial (Cart.addToCart "cookies-01" 2 ∅))) in
  let order := build_order (mkClock 1712000000000 "2024-04-01T19:33:20.000Z") st in
  State.cart st = {[ "cookies-01" := 2 ]}
  ∧ Order.id order = "ORD-1712000000000"
  ∧ Order.items order
    = [Item.mk "cookies-01" "Classic Chocolate Chip" 2 (9 # 2)]
  ∧ (Order.subtotal order == 9)%Q
  ∧ (handlePlaceOrder (mkClock 1712000000000 "2024-04-01T19:33:20.000Z") st).2
    = [Download "ORD-1712000000000_receipt.json" order]
  ∧ State.cart
      (handlePlaceOrder (mkClock 1712000000000 "2024-04-01T19:33:20.000Z") st).1
    = ∅.
Proof. cbv zeta. repeat split; vm_compute; reflexivity. Qed.

(** A product that is no longer in the catalog is listed under its id at
    price 0. *)
Example unresolved_line_item :
  Order.items
    (build_order (mkClock 1000 "1970-01-01T00:00:01.000Z")
       (initial {[ "gone" := 3 ]}))
  = [Item.mk "gone" "gone" 3 0].
Proof. vm_compute. reflexivity. Qed.

End Checkout.

(** ** Order identifiers *)

Section OrderIds.

Implicit Types (st : State.t) (clock : Clock) (evs : list event).

(** The identifier of the order built at a given reading of the clock. *)
Lemma build_order_id clock st :
  Order.id (build_order clock st)
  = "ORD-" +:+ Js.number_to_string (Date_now clock).
Proof. reflexivity. Qed.

(** Different readings of the clock print as different identifiers. *)
Lemma order_id_inj : Inj (=) (=) (λ t : Z, "ORD-" +:+ Js.number_to_string t).
Proof.
  intros a b Heq. apply String.app_inj in Heq.
  by apply pretty_Z_inj in Heq.
Qed.

(** A submission hands out at most one order, named after its reading of
    the clock. *)
Lemma handlePlaceOrder_ids clock st :
  Order.id <$> orders_of (handlePlaceOrder clock st).2
  = (λ t : Z, "ORD-" +:+ Js.number_to_string t)
      <$> order_time (SubmitCheckout clock) (handlePlaceOrder clock st).2.
Proof.
  unfold handlePlaceOrder. cbv zeta.
  destruct (_ || _); [reflexivity|].
  destruct (_ =? _); reflexivity.
Qed.

Lemma dispatch_ids st (ev : event) :
  Order.id <$> orders_of (dispatch st ev).2
  = (λ t : Z, "ORD-" +:+ Js.number_to_string t)
      <$> order_time ev (dispatch st ev).2.
Proof.
  destruct ev; try reflexivity. simpl.
  destruct (State.checkoutOpen st); [apply handlePlaceOrder_ids|reflexivity].
Qed.

(** The identifiers of the orders of a session are its successful
    submissions' readings of the clock, printed after the prefix. *)
Lemma session_ids st evs :
  Order.id <$> orders_of (session st evs).2
  = (λ t : Z, "ORD-" +:+ Js.number_to_string t) <$> order_times st evs.
Proof.
  revert st. induction evs as [|ev evs IH]; intros st; [reflexivity|].
  cbn [session order_times].
  pose proof (dispatch_ids st ev) as Hev.
  destruct (dispatch st ev) as [st1 out1].
  specialize (IH st1). destruct (session st1 evs) as [st2 out2].
  cbn [snd] in *. unfold orders_of in *.
  by rewrite omap_app, !fmap_app, Hev, IH.
Qed.

(** C8, amended: two orders of a session that were placed at different
    readings of the clock have different identifiers, and the identifiers
    of a session are pairwise distinct when the readings of its successful
    submissions are: an identifier is the fixed prefix followed by the
    reading, so it is as unique as the readings are. *)
Theorem session_order_ids_distinct st evs :
  (∀ (i j : nat) (o1 o2 : Order.t) (t1 t2 : Z),
     orders_of (session st evs).2 !! i = Some o1 →
     orders_of (session st evs).2 !! j = Some o2 →
     order_times st evs !! i = Some t1 →
     order_times st evs !! j = Some t2 →
     t1 ≠ t2 → Order.id o1 ≠ Order.id o2)
  ∧ (NoDup (order_times st evs) →
     NoDup (Order.id <$> orders_of (session st evs).2)).
Proof.
  pose proof (session_ids st evs) as Hids. split.
  - intros i j o1 o2 t1 t2 Ho1 Ho2 Ht1 Ht2 Hne Heq.
    assert (∀ (k : nat) (o : Order.t) (t : Z),
              orders_of (session st evs).2 !! k = Some o →
              order_times st evs !! k = Some t →
              Order.id o = "ORD-" +:+ Js.number_to_string t) as Hat.
    { intros k o t Ho Ht.
      apply (f_equal (λ l, l !! k)) in Hids.
      rewrite !list_lookup_fmap, Ho, Ht in Hids. by injection Hids. }
    rewrite (Hat i o1 t1), (Hat j o2 t2) in Heq by done.
    by apply order_id_inj in Heq.
  - intros Htimes. rewrite Hids.
    pose proof order_id_inj as Hinj. by apply (NoDup_fmap_2 _).
Qed.

Lemma session_order_ids_distinct_witness :
  NoDup (Order.id <$> orders_of (session (initial ∅) (two_checkouts 1000 1001)).2).
Proof.
  refine (proj2 (session_order_ids_distinct (initial ∅) (two_checkouts 1000 1001)) _).
  change (NoDup [1000; 1001]). apply NoDup_cons. split.
  - rewrite list_elem_of_singleton. lia.
  - apply NoDup_singleton.
Defined.

(** C8 as stated fails: two successful submissions that read the same value
    of the clock hand out two orders with one and the same identifier. *)
Lemma same_reading_same_order_id :
  Order.id <$> orders_of (session (initial ∅) (two_checkouts 1000 1000)).2
  = ["ORD-1000"; "ORD-1000"]
  ∧ ¬ NoDup (Order.id <$> orders_of
               (session (initial ∅) (two_checkouts 1000 1000)).2).
Proof.
  assert (Hids : Order.id <$> orders_of
                   (session (initial ∅) (two_checkouts 1000 1000)).2
                 = ["ORD-1000"; "ORD-1000"]) by (vm_compute; reflexivity).
  split; [exact Hids|].
  rewrite Hids. intros Hnodup. apply NoDup_cons in Hnodup as [Hnotin _].
  apply Hnotin. left.
Qed.

End OrderIds.

(** ** Reading the persisted cart *)

Section Persistence.

(** Where [load] falls back on the empty mapping: the storage cannot be
    read, holds nothing under the key, holds the empty text, or holds a
    text that [JSON.parse] rejects. *)
Lemma load_recovers (storage : slot) :
  storage = Unavailable
  ∨ storage = Missing
  ∨ storage = Holds EmptyString
  ∨ (∃ raw : string, storage = Holds raw ∧ Json.parse raw = None) →
  load storage = Json.Object [].
Proof.
  intros [->|[->|[->|(raw & -> & Hparse)]]]; try reflexivity.
  unfold load. rewrite Hparse. by destruct (String.eqb raw EmptyString).
Qed.

(** A text that parses is handed back as the value it denotes, whatever
    that value is. *)
Lemma load_parsed (raw : string) (v : Json.value) :
  raw ≠ EmptyString → Json.parse raw = Some v → load (Holds raw) = v.
Proof.
  intros Hraw Hparse. unfold load.
  apply String.eqb_neq in Hraw. by rewrite Hraw, Hparse.
Qed.

Lemma load_stored_cart :
  mapping_of
    (load (Holds ("{" +:+ Json.quoted "cookies-01" +:+ ": 2, "
                  +:+ Json.quoted "cookies-03" +:+ ": 1}")))
  = Some {[ "cookies-01" := 2; "cookies-03" := 1 ]}.
Proof. vm_compute. reflexivity. Qed.

(** C7 fails on the code: a stored text that is valid JSON but not an
    object, such as [null], [7] or a list, is parsed without an exception
    and handed to the component as it is; [load] then returns something
    that is not a mapping instead of the empty mapping. *)
Theorem load_returns_non_mapping :
  load (Holds "null") = Json.Null
  ∧ mapping_of (load (Holds "null")) = None
  ∧ load (Holds "7") = Json.Number 7
  ∧ mapping_of (load (Holds "7")) = None
  ∧ load (Holds "[1, 2]") = Json.Array [Json.Number 1; Json.Number 2]
  ∧ mapping_of (load (Holds "[1, 2]")) = None.
Proof. repeat split; vm_compute; reflexivity. Qed.

End Persistence.

(** ** Query engine *)

(** *** Case-insensitive search *)

Section Search.

Implicit Types (s t text search : string) (a b c : ascii).

Lemma toLowerCase_ascii_upper c :
  is_upper c →
  Js.toLowerCase_ascii c = ascii_of_N (N_of_ascii c + 32)
  ∧ ¬ is_upper (Js.toLowerCase_ascii c).
Proof.
  intros [Hlo Hhi]. unfold Js.toLowerCase_ascii, is_upper. cbv zeta.
  destruct (N.leb_spec 65 (N_of_ascii c)); [|lia].
  destruct (N.leb_spec (N_of_ascii c) 90); [|lia]. simpl.
  split; [reflexivity|].
  rewrite N_ascii_embedding by lia. lia.
Qed.

Lemma toLowerCase_ascii_other c :
  ¬ is_upper c → Js.toLowerCase_ascii c = c.
Proof.
  intros Hc. unfold Js.toLowerCase_ascii, is_upper in *. cbv zeta.
  destruct (N.leb_spec 65 (N_of_ascii c));
    destruct (N.leb_spec (N_of_ascii c) 90); simpl; try reflexivity.
  lia.
Qed.

Lemma is_upper_dec c : is_upper c ∨ ¬ is_upper c.
Proof. unfold is_upper. lia. Qed.

Lemma toLowerCase_ascii_idemp c :
  Js.toLowerCase_ascii (Js.toLowerCase_ascii c) = Js.toLowerCase_ascii c.
Proof.
  destruct (is_upper_dec c) as [Hc|Hc].
  - apply toLowerCase_ascii_other. by apply toLowerCase_ascii_upper.
  - by rewrite !(toLowerCase_ascii_other c Hc).
Qed.

Lemma toLowerCase_ascii_inj_upper a b :
  is_upper a → is_upper b →
  Js.toLowerCase_ascii a = Js.toLowerCase_ascii b → a = b.
Proof.
  intros Ha Hb Heq.
  destruct (toLowerCase_ascii_upper a Ha) as [-> _] in Heq.
  destruct (toLowerCase_ascii_upper b Hb) as [-> _] in Heq.
  destruct Ha, Hb.
  apply (f_equal N_of_ascii) in Heq.
  rewrite !N_ascii_embedding in Heq by lia.
  rewrite <- (ascii_N_embedding a), <- (ascii_N_embedding b).
  f_equal. lia.
Qed.

Lemma small_of_lower a b :
  small_of a b →
  is_upper a ∧ ¬ is_upper b ∧ Js.toLowerCase_ascii a = b.
Proof.
  intros (Hlo & Hhi & Hb).
  assert (is_upper a) as Ha by done.
  split; [done|]. split; [unfold is_upper; lia|].
  destruct (toLowerCase_ascii_upper a Ha) as [-> _].
  by rewrite <- Hb, ascii_N_embedding.
Qed.

(** Equal after lowering is the same as equal up to case. *)
Lemma same_char_lower_eq a b :
  same_char a b ↔ Js.toLowerCase_ascii a = Js.toLowerCase_ascii b.
Proof.
  split.
  - intros [c|x y Hxy|x y Hxy]; [reflexivity|..];
      destruct (small_of_lower x y Hxy) as (_ & Hy & <-);
      by rewrite toLowerCase_ascii_idemp.
  - intros Heq.
    assert (∀ x y, is_upper x → ¬ is_upper y →
                   Js.toLowerCase_ascii x = y → small_of x y) as Hsmall.
    { intros x y Hx Hy Hxy. destruct (toLowerCase_ascii_upper x Hx) as [Hl _].
      rewrite Hl in Hxy. destruct Hx as [Hlo Hhi].
      split; [done|]. split; [done|].
      rewrite <- Hxy. apply N_ascii_embedding. lia. }
    destruct (is_upper_dec a) as [Ha|Ha], (is_upper_dec b) as [Hb|Hb].
    + rewrite (toLowerCase_ascii_inj_upper a b) by done. constructor.
    + rewrite (toLowerCase_ascii_other b) in Heq by done.
      apply same_char_lower. by apply Hsmall.
    + rewrite (toLowerCase_ascii_other a) in Heq by done.
      apply same_char_upper. by apply Hsmall.
    + rewrite !toLowerCase_ascii_other in Heq by done. subst b. constructor.
Qed.

Lemma same_text_lower_eq s t :
  same_text s t ↔ Js.toLowerCase s = Js.toLowerCase t.
Proof.
  split.
  - induction 1 as [|a b s t Hab _ IH]; simpl; [reflexivity|].
    apply same_char_lower_eq in Hab. by rewrite Hab, IH.
  - revert t. induction s as [|a s IH]; intros [|b t]; simpl; try discriminate.
    + constructor.
    + intros [= Hab Hst]. constructor; [by apply same_char_lower_eq|by apply IH].
Qed.

Lemma toLowerCase_app s t :
  Js.toLowerCase (s +:+ t) = Js.toLowerCase s +:+ Js.toLowerCase t.
Proof. induction s as [|a s IH]; simpl; [reflexivity|by rewrite IH]. Qed.

(** A lowered text splits where its source splits. *)
Lemma toLowerCase_split s (x y : string) :
  Js.toLowerCase s = x +:+ y →
  ∃ s1 s2 : string,
    s = s1 +:+ s2 ∧ Js.toLowerCase s1 = x ∧ Js.toLowerCase s2 = y.
Proof.
  revert s. induction x as [|c x IH]; intros s Heq; simpl in Heq.
  - by exists EmptyString, s.
  - destruct s as [|a s]; simpl in Heq; [discriminate|].
    injection Heq as Hc Hrest.
    destruct (IH s Hrest) as (s1 & s2 & -> & <- & <-).
    exists (String a s1), s2. simpl. by rewrite Hc.
Qed.

Lemma prefix_spec (p s : string) :
  String.prefix p s = true ↔ ∃ rest : string, s = p +:+ rest.
Proof.
  revert s. induction p as [|a p IH]; intros s.
  - split; [by exists s|]. intros _. by destruct s.
  - destruct s as [|b s]; simpl.
    + split; [discriminate|]. intros [rest Hrest]. discriminate.
    + destruct (ascii_dec a b) as [->|Hne].
      * rewrite IH. split; intros [rest Hrest]; exists rest.
        -- by rewrite Hrest.
        -- by injection Hrest.
      * split; [discriminate|]. intros [rest Hrest]. by injection Hrest.
Qed.

Lemma includes_unfold text search :
  Js.includes text search
  = if String.prefix search text then true
    else match text with
         | EmptyString => false
         | String _ text' => Js.includes text' search
         end.
Proof. by destruct text. Qed.

(** [includes] finds exactly the substrings. *)
Lemma includes_spec text search :
  Js.includes text search = true
  ↔ ∃ before after : string, text = before +:+ search +:+ after.
Proof.
  split.
  - induction text as [|c text IH]; rewrite includes_unfold;
      destruct (String.prefix search _) eqn:Hp.
    + intros _. apply prefix_spec in Hp as [rest Hrest].
      by exists EmptyString, rest.
    + discriminate.
    + intros _. apply prefix_spec in Hp as [rest Hrest].
      by exists EmptyString, rest.
    + intros Hinc. destruct (IH Hinc) as (before & after & ->).
      by exists (String c before), after.
  - intros (before & after & ->).
    induction before as [|c before IH]; rewrite includes_unfold.
    + assert (String.prefix search (search +:+ after) = true) as Hp
        by (apply prefix_spec; by exists after).
      change (EmptyString +:+ search +:+ after) with (search +:+ after).
      by rewrite Hp.
    + change (String c before +:+ search +:+ after)
        with (String c (before +:+ search +:+ after)).
      cbv iota. rewrite IH. by destruct (String.prefix _ _).
Qed.

(** The test of [filteredProducts] on one text. *)
Lemma includes_toLowerCase text search :
  Js.includes (Js.toLowerCase text) (Js.toLowerCase search) = true
  ↔ contains_ci text search.
Proof.
  rewrite includes_spec. split.
  - intros (x & y & Heq).
    apply toLowerCase_split in Heq as (before & rest & -> & <- & Hrest).
    apply toLowerCase_split in Hrest as (found & after & -> & Hfound & <-).
    exists before, found, after. split; [reflexivity|].
    by apply same_text_lower_eq.
  - intros (before & found & after & -> & Hsame).
    apply same_text_lower_eq in Hsame.
    exists (Js.toLowerCase before), (Js.toLowerCase after).
    by rewrite !toLowerCase_app, Hsame.
Qed.

(** The empty search text occurs in every text. *)
Lemma contains_ci_empty text : contains_ci text EmptyString.
Proof. exists EmptyString, EmptyString, text. split; [reflexivity|constructor]. Qed.

End Search.

(** *** Filtering *)

Section Filtering.

Context {A : Type}.
Implicit Types (l r : list A) (f g : A → bool) (P : A → Prop).

(** A boolean test that decides [P] keeps the elements that satisfy [P]. *)
Lemma keeps_filter P f l :
  (∀ x, f x = true ↔ P x) → keeps P l (List.filter f l).
Proof.
  intros Hf. induction l as [|x l IH]; simpl; [constructor|].
  destruct (f x) eqn:Hx.
  - apply keeps_take; [by apply Hf|done].
  - apply keeps_drop; [|done]. intros HP. apply Hf in HP. congruence.
Qed.



Lemma filter_filter f g l :
  List.filter g (List.filter f l) = List.filter (λ x, f x && g x) l.
Proof.
  induction l as [|x l IH]; simpl; [reflexivity|].
  destruct (f x); simpl; [|done].
  destruct (g x); by rewrite IH.
Qed.

End Filtering.

(** *** Sorting *)

Section StableSort.

Context {A : Type} (compareFn : A → A → Q) (le : A → A → Prop).

(** [compareFn] orders as the total preorder [le] does. *)
Hypothesis compare_le : ∀ x y, Qle_bool (compareFn x y) 0 = true ↔ le x y.
Hypothesis le_trans : ∀ x y z, le x y → le y z → le x z.
Hypothesis le_total : ∀ x y, le x y ∨ le y x.

Implicit Types (x y : A) (l : list A).

Lemma sort_insert_perm x l : Js.sort_insert compareFn x l ≡ₚ x :: l.
Proof.
  induction l as [|y l IH]; simpl; [reflexivity|].
  destruct (Qle_bool (compareFn x y) 0); [reflexivity|].
  rewrite IH. apply Permutation_swap.
Qed.

Lemma sort_perm l : Js.sort compareFn l ≡ₚ l.
Proof.
  unfold Js.sort. induction l as [|x l IH]; simpl; [reflexivity|].
  by rewrite sort_insert_perm, IH.
Qed.





End StableSort.

(** *** The visible products *)

Section Query.

Implicit Types (catalog : list Product.t) (query category sort : string).






(** A stable order by price is determined by the list it orders, so the
    sorting algorithm of the engine does not matter. *)
Lemma stably_sorted_unique (le : Q → Q → Prop) (out out' : list Product.t) :
  (∀ x y : Q, le x y → le y x → (x == y)%Q) →
  out ≡ₚ out' →
  StronglySorted (λ a b, le (Product.price a) (Product.price b)) out →
  StronglySorted (λ a b, le (Product.price a) (Product.price b)) out' →
  (∀ v : Q, at_price v out = at_price v out') →
  out = out'.
Proof.
  intros Hanti. revert out'.
  induction out as [|x xs IH]; intros out' Hperm Hs Hs' Hties.
  - by apply Permutation_nil_l in Hperm.
  - destruct out' as [|y ys]; [by apply Permutation_nil_r in Hperm|].
    apply StronglySorted_inv in Hs as [Hxs Hx].
    apply StronglySorted_inv in Hs' as [Hys Hy].
    assert (Product.price x == Product.price y)%Q as Hxy.
    { assert (x ∈ y :: ys) as Hin by (rewrite <- Hperm; left).
      assert (y ∈ x :: xs) as Hin' by (rewrite Hperm; left).
      apply elem_of_cons in Hin as [->|Hin]; [reflexivity|].
      apply elem_of_cons in Hin' as [->|Hin']; [reflexivity|].
      rewrite Forall_forall in Hx, Hy. apply Hanti; auto. }
    assert (x = y) as ->.
    { specialize (Hties (Product.price x)). unfold at_price in Hties.
      simpl in Hties. rewrite Qeq_bool_refl in Hties.
      apply Qeq_sym, Qeq_eq_bool in Hxy. rewrite Hxy in Hties.
      by injection Hties. }
    f_equal. apply IH; [by apply Permutation_cons_inv in Hperm|done|done|].
    intros v. specialize (Hties v). unfold at_price in *. simpl in Hties.
    destruct (Qeq_bool (Product.price y) v); [by injection Hties|done].
Qed.

Lemma stably_ordered_unique (le : Q → Q → Prop) (base out out' : list Product.t) :
  (∀ x y : Q, le x y → le y x → (x == y)%Q) →
  stably_ordered le base out → stably_ordered le base out' → out = out'.
Proof.
  intros Hanti (Hperm & Hs & Hties) (Hperm' & Hs' & Hties').
  apply (stably_sorted_unique le); try done.
  - by rewrite Hperm, Hperm'.
  - intros v. by rewrite Hties, Hties'.
Qed.

(** The two filters of [filteredProducts] keep the selected products. *)
Lemma filters_keep_selected catalog query category :
  keeps (selected query category) catalog
    (let out :=
       List.filter (λ p,
         Js.includes (Js.toLowerCase (Product.name p)) (Js.toLowerCase query)
         || Js.includes (Js.toLowerCase (Product.desc p)) (Js.toLowerCase query))
         catalog in
     if negb (String.eqb category "All")
     then List.filter (λ p, String.eqb (Product.category p) category) out
     else out).
Proof.
  cbv zeta. destruct (String.eqb_spec category "All") as [->|Hcat]; simpl.
  - apply keeps_filter. intros p. unfold selected.
    rewrite orb_true_iff, !includes_toLowerCase. tauto.
  - rewrite filter_filter. apply keeps_filter. intros p. unfold selected.
    rewrite andb_true_iff, orb_true_iff, !includes_toLowerCase.
    rewrite String.eqb_eq. tauto.
Qed.


Lemma SAMPLE_PRODUCTS_ascii : ascii_catalog SAMPLE_PRODUCTS.
Proof.
  intros p. unfold SAMPLE_PRODUCTS. rewrite !elem_of_cons, elem_of_nil.
  intros [->|[->|[->|[->|[]]]]]; vm_compute; repeat split.
Qed.


Example filteredProducts_choc :
  Product.id <$> filteredProducts SAMPLE_PRODUCTS "CHOC" "All" "price-desc"
  = ["cookies-03"; "cookies-01"].
Proof. vm_compute. reflexivity. Qed.

Example filteredProducts_price_asc :
  Product.id <$> filteredProducts SAMPLE_PRODUCTS EmptyString "All" "price-asc"
  = ["cookies-02"; "cookies-01"; "cookies-04"; "cookies-03"].
Proof. vm_compute. reflexivity. Qed.

Example filteredProducts_category :
  Product.id <$> filteredProducts SAMPLE_PRODUCTS EmptyString "Classic" "featured"
  = ["cookies-01"; "cookies-04"].
Proof. vm_compute. reflexivity. Qed.

End Query.

(** ** Writing the cart and reading it back *)

Section RoundTrip.

Implicit Types (s t rest tail : string) (c : ascii) (x : N) (z : Z).

Lemma string_app_assoc s t rest : (s +:+ t) +:+ rest = s +:+ t +:+ rest.
Proof.
  induction s as [|c s IH]; [reflexivity|].
  change (String c ((s +:+ t) +:+ rest) = String c (s +:+ t +:+ rest)).
  by rewrite IH.
Qed.

Lemma string_app_length s t :
  String.length (s +:+ t) = (String.length s + String.length t)%nat.
Proof.
  induction s as [|c s IH]; [reflexivity|].
  change (S (String.length (s +:+ t))
          = S (String.length s + String.length t)).
  by rewrite IH.
Qed.

(** Reading undoes the escape of one character. *)
Lemma chars_quote_char c tail :
  Json.chars (Stringify.quote_char c +:+ tail)
  = '(body, rest) ← Json.chars tail; Some (String c body, rest).
Proof. destruct c as [[] [] [] [] [] [] [] []]; reflexivity. Qed.

(** Reading undoes the writing of a string literal. *)
Lemma chars_quote_body s rest :
  Json.chars (Stringify.quote_body s +:+ String Json.quote rest)
  = Some (s, rest).
Proof.
  induction s as [|c s IH]; [reflexivity|].
  cbn [Stringify.quote_body]. rewrite string_app_assoc, chars_quote_char, IH.
  reflexivity.
Qed.

(** *** Numbers *)

Lemma digit_val_pretty x :
  (x < 10)%N → Json.digit_val (pretty_N_char x) = Some x.
Proof.
  intros Hx.
  assert (x = 0 ∨ x = 1 ∨ x = 2 ∨ x = 3 ∨ x = 4 ∨ x = 5 ∨ x = 6 ∨ x = 7
          ∨ x = 8 ∨ x = 9)%N as Hcases by lia.
  repeat (destruct Hcases as [->|Hcases]; [reflexivity|]). by subst.
Qed.

Lemma pretty_N_go_app x s t : pretty_N_go x s +:+ t = pretty_N_go x (s +:+ t).
Proof.
  revert s. induction (N.lt_wf_0 x) as [x _ IH]; intros s.
  assert (x = 0 ∨ 0 < x)%N as [->|Hx] by lia; [by rewrite !pretty_N_go_0|].
  rewrite (pretty_N_go_step x s), (pretty_N_go_step x (s +:+ t)) by done.
  rewrite IH by (by apply N.div_lt). reflexivity.
Qed.

(** Reading the digits of a printed number gives the number back. *)
Lemma digits_pretty_go x (acc : N) (count : nat) s :
  ∃ k : nat,
    Json.digits acc count (pretty_N_go x s)
    = Json.digits (acc * 10 ^ N.of_nat k + x) (count + k) s
    ∧ ((0 < x)%N → (0 < k)%nat).
Proof.
  revert acc count s. induction (N.lt_wf_0 x) as [x _ IH]; intros acc count s.
  assert (x = 0 ∨ 0 < x)%N as [->|Hx] by lia.
  - exists 0%nat. rewrite pretty_N_go_0. split; [|lia].
    f_equal; [|lia]. simpl. lia.
  - rewrite pretty_N_go_step by done.
    destruct (IH (x `div` 10)%N (N.div_lt x 10 Hx eq_refl) acc count
                 (String (pretty_N_char (x `mod` 10)) s)) as (k & Hk & _).
    exists (S k). split; [|lia]. rewrite Hk.
    cbn [Json.digits]. rewrite digit_val_pretty by (by apply N.mod_lt).
    f_equal; [|lia].
    rewrite Nat2N.inj_succ, N.pow_succ_r'.
    pose proof (N.div_mod x 10). lia.
Qed.

(** A printed positive number starts with a digit other than 0. *)
Lemma pretty_N_go_head x s :
  (0 < x)%N →
  ∃ (d : N) (t : string),
    (0 < d < 10)%N ∧ pretty_N_go x s = String (pretty_N_char d) t.
Proof.
  revert s. induction (N.lt_wf_0 x) as [x _ IH]; intros s Hx.
  rewrite pretty_N_go_step by done.
  destruct (N.eq_0_gt_0_cases (x `div` 10)) as [Hq|Hq].
  - rewrite Hq, pretty_N_go_0. exists (x `mod` 10)%N, s.
    split; [|reflexivity].
    pose proof (N.div_mod x 10). pose proof (N.mod_lt x 10). lia.
  - apply IH; [by apply N.div_lt|done].
Qed.

Lemma int_part_digit (d : N) t :
  (0 < d < 10)%N →
  Json.int_part (String (pretty_N_char d) t)
  = let '(n, count, rest) := Json.digits 0 0 (String (pretty_N_char d) t) in
    match count with O => None | S _ => Some (n, rest) end.
Proof.
  intros Hd.
  assert (d = 1 ∨ d = 2 ∨ d = 3 ∨ d = 4 ∨ d = 5 ∨ d = 6 ∨ d = 7 ∨ d = 8
          ∨ d = 9)%N as Hcases by lia.
  repeat (destruct Hcases as [->|Hcases]; [reflexivity|]). by subst.
Qed.

Lemma number_digit (d : N) t :
  (d < 10)%N →
  Json.number (String (pretty_N_char d) t)
  = '(i, s2) ← Json.int_part (String (pretty_N_char d) t);
    '(f, flen, s3) ← Json.frac_part s2;
    '(e, s4) ← Json.exp_part s3;
    Some (Qred (inject_Z (Z.of_N i * 10 ^ Z.of_nat flen + Z.of_N f)
                * Qpower 10 (e - Z.of_nat flen)), s4).
Proof.
  intros Hd.
  assert (d = 0 ∨ d = 1 ∨ d = 2 ∨ d = 3 ∨ d = 4 ∨ d = 5 ∨ d = 6 ∨ d = 7
          ∨ d = 8 ∨ d = 9)%N as Hcases by lia.
  repeat (destruct Hcases as [->|Hcases]; [reflexivity|]). by subst.
Qed.

Lemma int_part_pretty x c rest :
  (0 < x)%N → closes c →
  Json.int_part (pretty_N_go x (String c rest)) = Some (x, String c rest).
Proof.
  intros Hx Hc.
  destruct (pretty_N_go_head x (String c rest) Hx) as (d & t & Hd & Hhead).
  rewrite Hhead, int_part_digit by done. rewrite <- Hhead.
  destruct (digits_pretty_go x 0 0 (String c rest)) as (k & -> & Hk).
  specialize (Hk Hx).
  assert (Json.digits (0 * 10 ^ N.of_nat k + x) (0 + k) (String c rest)
          = (x, k, String c rest)) as ->.
  { destruct Hc as [->| ->]; reflexivity. }
  destruct k; [lia|reflexivity].
Qed.

Lemma Qred_integer (m : Z) :
  Qred (inject_Z (m * 10 ^ Z.of_nat 0 + Z.of_N 0) * Qpower 10 (0 - Z.of_nat 0))
  = inject_Z m.
Proof.
  rewrite <- (inject_Z_Qred m). apply Qred_complete.
  change (Qpower 10 (0 - Z.of_nat 0)) with 1%Q.
  replace (m * 10 ^ Z.of_nat 0 + Z.of_N 0) with m by (simpl; lia).
  apply Qmult_1_r.
Qed.

Lemma number_pretty_N x c rest :
  closes c →
  Json.number (pretty x +:+ String c rest)
  = Some (inject_Z (Z.of_N x), String c rest).
Proof.
  intros Hc. unfold pretty, pretty_N.
  destruct (decide (x = 0)%N) as [->|Hx].
  - destruct Hc as [->| ->]; reflexivity.
  - rewrite pretty_N_go_app. change (EmptyString +:+ String c rest)
      with (String c rest).
    destruct (pretty_N_go_head x (String c rest)) as (d & t & Hd & Hhead);
      [lia|].
    rewrite Hhead, number_digit by lia. rewrite <- Hhead.
    rewrite int_part_pretty by (done || lia). cbn [mbind option_bind].
    assert (Json.frac_part (String c rest) = Some (0%N, 0%nat, String c rest))
      as -> by (destruct Hc as [->| ->]; reflexivity).
    cbn [mbind option_bind].
    assert (Json.exp_part (String c rest) = Some (0, String c rest))
      as -> by (destruct Hc as [->| ->]; reflexivity).
    cbn [mbind option_bind]. by rewrite Qred_integer.
Qed.

(** Reading undoes the printing of an integer. *)
Lemma number_pretty z c rest :
  closes c →
  Json.number (Js.number_to_string z +:+ String c rest)
  = Some (inject_Z z, String c rest).
Proof.
  intros Hc. unfold Js.number_to_string, pretty, pretty_Z.
  destruct z as [|p|p].
  - destruct Hc as [->| ->]; reflexivity.
  - apply (number_pretty_N (N.pos p)). done.
  - pose proof (number_pretty_N (N.pos p) c rest Hc) as Hpos.
    change (pretty (A:=positive) p) with (pretty (N.pos p)).
    destruct (pretty_N_go_head (N.pos p) (String c rest)) as (d & t & Hd & Hhead);
      [lia|].
    unfold pretty, pretty_N in *.
    destruct (decide (N.pos p = 0)%N) as [|_]; [lia|].
    rewrite pretty_N_go_app in Hpos.
    change (EmptyString +:+ String c rest) with (String c rest) in Hpos.
    change (("-" +:+ pretty_N_go (N.pos p) EmptyString) +:+ String c rest)
      with (String "-" (pretty_N_go (N.pos p) EmptyString +:+ String c rest)).
    rewrite pretty_N_go_app.
    change (EmptyString +:+ String c rest) with (String c rest).
    rewrite Hhead in Hpos |- *. rewrite number_digit in Hpos by lia.
    unfold Json.number. cbv zeta.
    destruct (Json.int_part _) as [[i s2]|]; [|discriminate].
    cbn [mbind option_bind] in *.
    destruct (Json.frac_part s2) as [[[f flen] s3]|]; [|discriminate].
    cbn [mbind option_bind] in *.
    destruct (Json.exp_part s3) as [[e s4]|]; [|discriminate].
    cbn [mbind option_bind] in *.
    injection Hpos as Hq Hs4. subst s4. f_equal. f_equal.
    rewrite Qred_opp, Hq. reflexivity.
Qed.

(** *** Members and objects *)

Lemma number_to_string_head z :
  ∃ (h : ascii) (t : string),
    Js.number_to_string z = String h t
    ∧ (h = "-"%char ∨ ∃ d : N, (d < 10)%N ∧ h = pretty_N_char d).
Proof.
  unfold Js.number_to_string, pretty, pretty_Z. destruct z as [|p|p].
  - exists "0"%char, EmptyString. split; [reflexivity|].
    right. by exists 0%N.
  - change (pretty (A:=positive) p) with (pretty (N.pos p)).
    unfold pretty, pretty_N. destruct (decide (N.pos p = 0)%N); [lia|].
    destruct (pretty_N_go_head (N.pos p) EmptyString) as (d & t & Hd & ->);
      [lia|].
    exists (pretty_N_char d), t. split; [reflexivity|]. right. exists d.
    split; [lia|reflexivity].
  - by exists "-"%char, (pretty p); split; [|left].
Qed.

(** A text that starts as a number is read as a number. *)
Lemma parse_value_number (depth : nat) (h : ascii) t :
  h = "-"%char ∨ (∃ d : N, (d < 10)%N ∧ h = pretty_N_char d) →
  Json.parse_value (S depth) (String h t)
  = '(q, rest) ← Json.number (String h t); Some (Json.Number q, rest).
Proof.
  intros [->|(d & Hd & ->)]; [reflexivity|].
  assert (d = 0 ∨ d = 1 ∨ d = 2 ∨ d = 3 ∨ d = 4 ∨ d = 5 ∨ d = 6 ∨ d = 7
          ∨ d = 8 ∨ d = 9)%N as Hcases by lia.
  repeat (destruct Hcases as [->|Hcases]; [reflexivity|]). by subst.
Qed.

Lemma member_text (e : string * Z) rest :
  Stringify.member e +:+ rest
  = String Json.quote
      (Stringify.quote_body e.1
       +:+ String Json.quote (String ":" (Js.number_to_string e.2 +:+ rest))).
Proof.
  unfold Stringify.member, Stringify.quote_string.
  rewrite !string_app_assoc.
  change (String Json.quote
            ((Stringify.quote_body e.1 +:+ String Json.quote EmptyString)
             +:+ ":" +:+ Js.number_to_string e.2 +:+ rest)
          = String Json.quote
              (Stringify.quote_body e.1
               +:+ String Json.quote
                     (String ":" (Js.number_to_string e.2 +:+ rest)))).
  rewrite string_app_assoc. reflexivity.
Qed.

(** Reading undoes the writing of one member. *)
Lemma member_parse (depth : nat) (e : string * Z) c rest :
  closes c →
  Json.member (Json.parse_value (S depth))
    (Stringify.member e +:+ String c rest)
  = Some (e.1, Json.Number (inject_Z e.2), String c rest).
Proof.
  intros Hc. rewrite member_text.
  change (Json.member ?pv (String Json.quote ?X))
    with ('(k, rest1) ← Json.chars X;
          match Json.skip_ws rest1 with
          | String ":" rest2 =>
              '(v, rest3) ← pv rest2; Some (k, v, rest3)
          | _ => None
          end).
  rewrite chars_quote_body. cbn [mbind option_bind].
  change (Json.skip_ws (String ":" ?X)) with (String ":" X). cbv iota beta.
  destruct (number_to_string_head e.2) as (h & t & Hnum & Hh).
  pose proof (number_pretty e.2 c rest Hc) as Hread.
  rewrite Hnum in Hread |- *.
  change (String h t +:+ String c rest) with (String h (t +:+ String c rest))
    in Hread |- *.
  rewrite parse_value_number, Hread by done. reflexivity.
Qed.

Lemma more_members_head (es : list (string * Z)) tail :
  ∃ (c : ascii) (rest : string),
    Stringify.more_members es +:+ String "}" tail = String c rest ∧ closes c.
Proof.
  destruct es as [|e es].
  - exists "}"%char, tail. split; [reflexivity|by right].
  - eexists ","%char, _. split; [reflexivity|by left].
Qed.

Lemma more_members_length (es : list (string * Z)) tail :
  (length es < String.length (Stringify.more_members es +:+ String "}" tail))%nat.
Proof.
  induction es as [|e es IH].
  - change (0 < S (String.length tail))%nat. lia.
  - cbn [Stringify.more_members length].
    change (("," +:+ ?a) +:+ ?b) with (String "," (a +:+ b)).
    rewrite string_app_assoc.
    change (String.length (String "," ?a)) with (S (String.length a)).
    rewrite string_app_length. lia.
Qed.

(** Reading undoes the writing of the members after the first one. *)
Lemma more_members_parse (depth : nat) (es : list (string * Z))
    (fuel : nat) (acc : list (string * Json.value)) tail :
  (length es < fuel)%nat →
  Json.more_members (Json.parse_value (S depth)) fuel acc
    (Stringify.more_members es +:+ String "}" tail)
  = Some ((reverse acc ++ (quantity_value <$> es))%list, tail).
Proof.
  revert fuel acc. induction es as [|e es IH]; intros fuel acc Hfuel.
  - destruct fuel as [|fuel]; [simpl in Hfuel; lia|].
    rewrite fmap_nil, app_nil_r. reflexivity.
  - destruct fuel as [|fuel]; [simpl in Hfuel; lia|].
    cbn [Stringify.more_members].
    change (("," +:+ ?a) +:+ ?b) with (String "," (a +:+ b)).
    rewrite string_app_assoc.
    destruct (more_members_head es tail) as (c & rest & Hrest & Hc).
    change (Json.more_members ?pv (S fuel) acc (String "," ?X))
      with ('(k, v, rest') ← Json.member pv X;
            Json.more_members pv fuel ((k, v) :: acc) rest').
    rewrite Hrest, member_parse by done. cbn [mbind option_bind].
    rewrite <- Hrest, IH by (simpl in Hfuel; lia).
    rewrite reverse_cons, <- app_assoc. reflexivity.
Qed.

(** Reading undoes the writing of an object of quantities. *)
Lemma parse_object (es : list (string * Z)) :
  Json.parse (Stringify.object es) = Some (Json.Object (quantity_value <$> es)).
Proof.
  destruct es as [|e es]; [reflexivity|].
  unfold Stringify.object, Json.parse.
  destruct (more_members_head es EmptyString) as (c & rest & Hrest & Hc).
  change ("{" +:+ ?a) with (String "{" a).
  rewrite member_text.
  set (body := Stringify.quote_body e.1 +:+ _).
  change (String.length (String "{" (String Json.quote body)))
    with (S (S (String.length body))).
  change (Json.parse_value (S (S (S (String.length body))))
            (String "{" (String Json.quote body)))
    with ('(ms, rest') ←
            ('(k, v, rest1) ←
               Json.member (Json.parse_value (S (S (String.length body))))
                 (String Json.quote body);
             Json.more_members (Json.parse_value (S (S (String.length body))))
               (String.length rest1) [(k, v)] rest1);
          Some (Json.Object ms, rest')).
  subst body. rewrite <- member_text, Hrest, member_parse by done.
  cbn [mbind option_bind]. rewrite <- Hrest.
  rewrite more_members_parse by apply more_members_length.
  reflexivity.
Qed.

Lemma integer_of_inject_Z z : integer_of (inject_Z z) = Some z.
Proof. unfold integer_of. by rewrite inject_Z_Qred. Qed.

(** An object of quantities is read as the mapping it was written from. *)
Lemma mapping_of_quantities (es : list (string * Z)) :
  mapping_of (Json.Object (quantity_value <$> es))
  = Some (list_to_map (reverse es)).
Proof.
  unfold mapping_of.
  assert (mapM (λ '(k, x),
                  match x with
                  | Json.Number q => n ← integer_of q; Some (k, n)
                  | _ => None
                  end) (quantity_value <$> es) = Some es) as ->.
  { induction es as [|[k v] es IH]; [reflexivity|].
    cbn [fmap list_fmap mapM].
    change (quantity_value (k, v)) with (k, Json.Number (inject_Z v)).
    cbv iota. rewrite integer_of_inject_Z. cbn [mbind option_bind].
    change (list_fmap _ _ quantity_value es) with (quantity_value <$> es).
    rewrite IH. reflexivity. }
  reflexivity.
Qed.

Lemma parse_stringify (cart : gmap string Z) :
  Json.parse (JSON_stringify cart)
  = Some (Json.Object (quantity_value <$> map_to_list cart)).
Proof. apply parse_object. Qed.

Lemma JSON_stringify_nonempty (cart : gmap string Z) :
  String.eqb (JSON_stringify cart) EmptyString = false.
Proof.
  unfold JSON_stringify, Stringify.object.
  by destruct (Js.Object_entries cart).
Qed.

Lemma load_stringify (cart : gmap string Z) :
  mapping_of (load (Holds (JSON_stringify cart))) = Some cart.
Proof.
  unfold load.
  rewrite JSON_stringify_nonempty, parse_stringify, mapping_of_quantities.
  f_equal. symmetry. apply list_to_map_flip. by rewrite reverse_Permutation.
Qed.

(** X1: what the effect writes under [cookie_shop_cart] is read back by
    the initializer as the very same cart, for every cart: every key with
    its quantity, whatever characters the keys contain. *)
Theorem load_after_save (cart : gmap string Z) :
  Json.parse (JSON_stringify cart)
  = Some (Json.Object (quantity_value <$> Js.Object_entries cart))
  ∧ mapping_of (load (Holds (JSON_stringify cart))) = Some cart.
Proof. split; [apply parse_stringify|apply load_stringify]. Qed.

(** *** The stored text follows the cart *)

Lemma dispatch_keeps_cart (st : State.t) (ev : event) :
  replaces_cart ev (dispatch st ev).2 = false →
  State.cart (dispatch st ev).1 = State.cart st.
Proof.
  destruct ev; try done. simpl.
  destruct (State.checkoutOpen st); [|done].
  unfold handlePlaceOrder. cbv zeta.
  destruct (_ || _); [done|]. by destruct (_ =? _).
Qed.

Lemma persisted_session_state (st : State.t) (stored : string)
    (evs : list event) :
  (persisted_session st stored evs).1 = (session st evs).1.
Proof.
  revert st stored. induction evs as [|ev evs IH]; intros st stored;
    [reflexivity|].
  cbn [persisted_session session].
  destruct (dispatch st ev) as [st1 out1]. rewrite IH.
  by destruct (session st1 evs).
Qed.

(** The stored text mirrors the cart after every event. *)
Lemma persisted_session_mirror (st : State.t) (stored : string)
    (evs : list event) :
  stored = JSON_stringify (State.cart st) →
  (persisted_session st stored evs).2
  = JSON_stringify (State.cart (session st evs).1).
Proof.
  revert st stored. induction evs as [|ev evs IH]; intros st stored Hst;
    [done|].
  cbn [persisted_session session].
  pose proof (dispatch_keeps_cart st ev) as Hkeep.
  destruct (dispatch st ev) as [st1 out1]. cbn [fst snd] in Hkeep.
  rewrite (IH st1).
  - by destruct (session st1 evs).
  - destruct (replaces_cart ev out1); [done|]. by rewrite Hkeep.
Qed.

(** X2: whatever the session, the text kept in storage at its end is read
    back as the cart the session ended with: reloading the page restores
    the cart. *)
Theorem reload_restores_cart (cart : gmap string Z) (evs : list event) :
  mapping_of
    (load (Holds (persisted_session (mount cart).1 (mount cart).2 evs).2))
  = Some (State.cart (session (initial cart) evs).1).
Proof.
  unfold mount. cbn [fst snd].
  rewrite (persisted_session_mirror (initial cart)) by reflexivity.
  apply load_stringify.
Qed.

End RoundTrip.

(** ** How the count and the total follow the cart *)

Section CartArithmetic.

Implicit Types (cart : gmap string Z) (catalog : list Product.t)
  (id : string) (q : Z).

Lemma count_loop (values : list Z) (a : Z) :
  foldl (λ a b, a + b) a values = a + foldr Z.add 0 values.
Proof.
  revert a. induction values as [|v values IH]; intros a; simpl; [lia|].
  rewrite IH. lia.
Qed.

Lemma count_any_order (values values' : list Z) :
  values ≡ₚ values' → foldr Z.add 0 values = foldr Z.add 0 values'.
Proof. induction 1; simpl; lia. Qed.

Lemma itemsInCart_entries cart (entries : list (string * Z)) :
  entries ≡ₚ map_to_list cart →
  itemsInCart cart = foldr Z.add 0 entries.*2.
Proof.
  intros Hperm. unfold itemsInCart, Js.Object_values, Js.Object_entries.
  rewrite count_loop, Z.add_0_l. apply count_any_order. by rewrite Hperm.
Qed.

(** The count is the quantity under one key plus the count of the rest. *)
Lemma itemsInCart_insert cart id q :
  itemsInCart (<[id := q]> cart) = q + itemsInCart (delete id cart).
Proof.
  rewrite <- insert_delete_eq.
  rewrite (itemsInCart_entries _ ((id, q) :: map_to_list (delete id cart))).
  - simpl. f_equal. symmetry. by apply itemsInCart_entries.
  - symmetry. apply map_to_list_insert, lookup_delete_eq.
Qed.

Lemma itemsInCart_split cart id :
  itemsInCart cart = default 0 (cart !! id) + itemsInCart (delete id cart).
Proof.
  destruct (cart !! id) as [v|] eqn:Hv; simpl.
  - rewrite <- itemsInCart_insert. by rewrite insert_id.
  - by rewrite delete_id.
Qed.

(** On the mapping, adding [q] of a product raises the count by [q]. *)
Lemma itemsInCart_addToCart cart id q :
  itemsInCart (Cart.addToCart id q cart) = itemsInCart cart + q.
Proof.
  unfold Cart.addToCart. cbv zeta.
  rewrite itemsInCart_insert, or_zero_default, (itemsInCart_split cart id).
  lia.
Qed.

(** On the mapping, setting the quantity of a product to [q] changes the
    count by the difference between what is stored now and what was stored
    before. *)
Lemma itemsInCart_updateQty cart id q :
  itemsInCart (Cart.updateQty id q cart)
  = itemsInCart cart - default 0 (cart !! id) + Z.max q 0.
Proof.
  unfold Cart.updateQty. cbv zeta. rewrite (itemsInCart_split cart id).
  destruct (Z.leb_spec q 0).
  - lia.
  - rewrite itemsInCart_insert. lia.
Qed.

Local Open Scope Q_scope.

Lemma total_entries catalog cart (entries : list (string * Z)) :
  entries ≡ₚ map_to_list cart →
  total_spec cart catalog
  == foldr (λ '(id, qty) acc,
              inject_Z qty * price_or_zero catalog id + acc) 0 entries.
Proof.
  unfold total_spec. generalize (map_to_list cart). intros l Hperm.
  induction Hperm as [|[k v] l l' _ IH|[k v] [k' v'] l|l l' l'' _ IH _ IH'];
    simpl.
  - reflexivity.
  - by rewrite IH.
  - ring.
  - by rewrite IH'.
Qed.

Lemma total_spec_insert catalog cart id q :
  total_spec (<[id := q]> cart) catalog
  == inject_Z q * price_or_zero catalog id
     + total_spec (delete id cart) catalog.
Proof.
  rewrite <- insert_delete_eq.
  rewrite (total_entries _ _ ((id, q) :: map_to_list (delete id cart))).
  - reflexivity.
  - symmetry. apply map_to_list_insert, lookup_delete_eq.
Qed.

Lemma total_spec_split catalog cart id :
  total_spec cart catalog
  == inject_Z (default 0%Z (cart !! id)) * price_or_zero catalog id
     + total_spec (delete id cart) catalog.
Proof.
  destruct (cart !! id) as [v|] eqn:Hv; simpl.
  - rewrite <- total_spec_insert. by rewrite insert_id.
  - rewrite delete_id by done. ring.
Qed.

(** On the mapping, with exact prices, the total follows the quantities:
    adding [q] of a product adds [q] times its price (0 for an id the
    catalog does not resolve), and setting its quantity replaces the old
    contribution by the new one. *)
Lemma cartTotal_follows_cart catalog cart id q :
  cartTotal catalog (Cart.addToCart id q cart)
  == cartTotal catalog cart + inject_Z q * price_or_zero catalog id
  ∧ cartTotal catalog (Cart.updateQty id q cart)
    == cartTotal catalog cart
       + inject_Z (Z.max q 0 - default 0%Z (cart !! id))
         * price_or_zero catalog id.
Proof.
  rewrite !cartTotal_total_spec. split.
  - unfold Cart.addToCart. cbv zeta.
    rewrite total_spec_insert, or_zero_default, (total_spec_split _ cart id).
    rewrite inject_Z_plus. ring.
  - unfold Cart.updateQty. cbv zeta. rewrite (total_spec_split _ cart id).
    destruct (Z.leb_spec q 0).
    + rewrite Z.max_r by lia. unfold Zminus. rewrite inject_Z_plus, inject_Z_opp.
      ring.
    + rewrite total_spec_insert, Z.max_l by lia.
      unfold Zminus. rewrite inject_Z_plus, inject_Z_opp. ring.
Qed.

Local Close Scope Q_scope.

Lemma cart_shown_empty_iff cart : cart_shown_empty cart = true ↔ cart = ∅.
Proof.
  unfold cart_shown_empty, Object_keys. rewrite Nat.eqb_eq, length_fmap.
  rewrite <- map_to_list_empty_iff. by destruct (map_to_list cart).
Qed.

(** X6: while every stored quantity is at least 1, the two tests for an
    empty cart agree: the panel shows "Your cart is empty." exactly when
    the count is 0, which is when a checkout is refused for an empty
    cart. *)
Theorem empty_tests_agree cart :
  Cart.quantities_positive cart →
  (cart_shown_empty cart = true ↔ itemsInCart cart = 0).
Proof.
  intros Hinv. rewrite cart_shown_empty_iff. split.
  - intros ->. reflexivity.
  - intros Hcount. destruct (decide (cart = ∅)) as [|Hne]; [done|].
    pose proof (itemsInCart_positive cart Hinv Hne). lia.
Qed.

Lemma empty_tests_agree_witness :
  cart_shown_empty {[ "cookies-01" := 2 ]} = true
  ↔ itemsInCart {[ "cookies-01" := 2 ]} = 0.
Proof.
  refine (empty_tests_agree {[ "cookies-01" := 2 ]} _).
  intros id q Hq. apply lookup_singleton_Some in Hq as [_ <-]. lia.
Defined.

End CartArithmetic.

(** ** How the cart operations compose *)

Section CartAlgebra.

Implicit Types (cart : gmap string Z) (id : string) (q : Z).

(** On the mapping, additions accumulate and can be made in either
    order. *)
Lemma addToCart_accumulates cart id (id' : string) (q1 q2 : Z) :
  Cart.addToCart id q2 (Cart.addToCart id q1 cart)
  = Cart.addToCart id (q1 + q2) cart
  ∧ Cart.addToCart id q1 (Cart.addToCart id' q2 cart)
    = Cart.addToCart id' q2 (Cart.addToCart id q1 cart).
Proof.
  split; apply map_eq; intros k.
  - destruct (decide (k = id)) as [->|Hne].
    + rewrite !addToCart_lookup. simpl. f_equal. lia.
    + by rewrite !addToCart_lookup_ne.
  - destruct (decide (id = id')) as [<-|Hid'].
    + destruct (decide (k = id)) as [->|Hne].
      * rewrite !addToCart_lookup. simpl. f_equal. lia.
      * by rewrite !addToCart_lookup_ne.
    + destruct (decide (k = id)) as [->|Hk].
      { rewrite addToCart_lookup, (addToCart_lookup_ne _ id' id) by done.
        by rewrite (addToCart_lookup_ne _ id' id), addToCart_lookup. }
      destruct (decide (k = id')) as [->|Hk'].
      { rewrite (addToCart_lookup_ne _ id id') by done.
        rewrite !addToCart_lookup. by rewrite (addToCart_lookup_ne _ id id'). }
      by rewrite !addToCart_lookup_ne.
Qed.

Lemma updateQty_lookup cart id q :
  Cart.updateQty id q cart !! id = if Z.leb q 0 then None else Some q.
Proof.
  unfold Cart.updateQty. cbv zeta. destruct (Z.leb q 0).
  - apply lookup_delete_eq.
  - apply lookup_insert_eq.
Qed.


(** X9: in the cart panel, the "+" button of a line does what "Add" does on
    the product card, and the "-" button takes one away, removing the line
    when it shows 1. *)
Theorem plus_minus_buttons cart id (qty : Z) :
  cart !! id = Some qty →
  1 ≤ qty →
  Cart.updateQty id (qty + 1) cart = Cart.addToCart id 1 cart
  ∧ (qty = 1 → Cart.updateQty id (qty - 1) cart = delete id cart)
  ∧ (1 < qty → Cart.updateQty id (qty - 1) cart = Cart.addToCart id (-1) cart).
Proof.
  intros Hqty Hpos. split; [|split].
  - apply map_eq. intros k. destruct (decide (k = id)) as [->|Hne].
    + rewrite updateQty_lookup, addToCart_lookup, Hqty.
      destruct (Z.leb_spec (qty + 1) 0); [lia|reflexivity].
    + by rewrite updateQty_lookup_ne, addToCart_lookup_ne.
  - intros ->. reflexivity.
  - intros Hgt. apply map_eq. intros k. destruct (decide (k = id)) as [->|Hne].
    + rewrite updateQty_lookup, addToCart_lookup, Hqty.
      destruct (Z.leb_spec (qty - 1) 0); [lia|]. simpl. f_equal; lia.
    + by rewrite updateQty_lookup_ne, addToCart_lookup_ne.
Qed.

Lemma plus_minus_buttons_witness :
  Cart.updateQty "cookies-01" (1 + 1) {[ "cookies-01" := 1 ]}
  = Cart.addToCart "cookies-01" 1 {[ "cookies-01" := 1 ]}
  ∧ Cart.updateQty "cookies-01" (1 - 1) {[ "cookies-01" := 1 ]}
    = delete "cookies-01" {[ "cookies-01" := 1 ]}.
Proof.
  destruct (plus_minus_buttons {[ "cookies-01" := 1 ]} "cookies-01" 1)
    as (Hplus & Hminus & _); [reflexivity|lia|].
  split; [exact Hplus|]. apply Hminus. reflexivity.
Defined.

End CartAlgebra.

(** ** What the product list shows *)

Section Listing.

Implicit Types (catalog : list Product.t) (query category sort : string)
  (p : Product.t).

Lemma filter_sublist {A : Type} (f : A → bool) (l : list A) :
  List.filter f l `sublist_of` l.
Proof.
  induction l as [|x l IH]; simpl; [constructor|].
  destruct (f x); by constructor.
Qed.

Lemma filteredProducts_perm catalog query category sort :
  filteredProducts catalog query category sort
  ≡ₚ filteredProducts catalog query category "featured".
Proof.
  unfold filteredProducts. cbv zeta.
  change (String.eqb "featured" "price-asc") with false.
  change (String.eqb "featured" "price-desc") with false. cbv iota.
  destruct (String.eqb sort "price-asc"), (String.eqb sort "price-desc");
    by rewrite ?sort_perm.
Qed.

Lemma filteredProducts_featured catalog query category :
  filteredProducts catalog query category "featured"
  `sublist_of` catalog.
Proof.
  unfold filteredProducts. cbv zeta.
  change (String.eqb "featured" "price-asc") with false.
  change (String.eqb "featured" "price-desc") with false. cbv iota.
  destruct (negb _).
  - etrans; apply filter_sublist.
  - apply filter_sublist.
Qed.

(** X10: the sort mode, also one the selector does not offer, only
    rearranges the list: the visible products are those of the "featured"
    order, and these are products of the catalog in catalog order, none
    invented and none repeated. *)
Theorem filteredProducts_rearranges catalog query category sort :
  filteredProducts catalog query category sort
  ≡ₚ filteredProducts catalog query category "featured"
  ∧ filteredProducts catalog query category "featured" `sublist_of` catalog.
Proof.
  split; [apply filteredProducts_perm|apply filteredProducts_featured].
Qed.

(** The products on show are the selected products of the catalog. *)
Lemma elem_of_filteredProducts catalog query category sort p :
  p ∈ filteredProducts catalog query category sort
  ↔ p ∈ catalog ∧ selected query category p.
Proof.
  pose proof (filters_keep_selected catalog query category) as Hkeeps.
  rewrite filteredProducts_perm.
  change (filteredProducts catalog query category "featured")
    with (let out :=
            List.filter (λ p,
              Js.includes (Js.toLowerCase (Product.name p))
                (Js.toLowerCase query)
              || Js.includes (Js.toLowerCase (Product.desc p))
                   (Js.toLowerCase query)) catalog in
          if negb (String.eqb category "All")
          then List.filter (λ p, String.eqb (Product.category p) category) out
          else out).
  induction Hkeeps as [|x l r Hx _ IH|x l r Hx _ IH].
  - split; [by intros ?%elem_of_nil|by intros [?%elem_of_nil _]].
  - rewrite !elem_of_cons, IH. split.
    + intros [->|[? ?]]; auto.
    + intros [[->|?] ?]; auto.
  - rewrite elem_of_cons, IH. split.
    + intros [? ?]; auto.
    + intros [[->|?] ?]; [done|auto].
Qed.

(** X11: a category that no product has, other than "All", shows nothing,
    whatever the search text and the sort mode. *)
Theorem unknown_category_shows_nothing catalog query category sort :
  category ≠ "All" →
  (∀ p, p ∈ catalog → Product.category p ≠ category) →
  filteredProducts catalog query category sort = [].
Proof.
  intros Hall Hnone.
  destruct (filteredProducts catalog query category sort) as [|p l] eqn:Hl;
    [done|].
  assert (p ∈ filteredProducts catalog query category sort) as Hin
    by (rewrite Hl; left).
  apply elem_of_filteredProducts in Hin as (Hp & _ & [Hcat|Hcat]); [done|].
  by destruct (Hnone p Hp).
Qed.

Lemma unknown_category_shows_nothing_witness :
  filteredProducts SAMPLE_PRODUCTS "chip" "Vegan" "price-asc" = [].
Proof.
  refine (unknown_category_shows_nothing SAMPLE_PRODUCTS "chip" "Vegan"
            "price-asc" _ _); [discriminate|].
  intros p. unfold SAMPLE_PRODUCTS. rewrite !elem_of_cons, elem_of_nil.
  intros [->|[->|[->|[->|[]]]]]; discriminate.
Defined.

Lemma Set_of_spec (seen xs : list string) :
  NoDup (Set_of seen xs)
  ∧ ∀ x : string, x ∈ Set_of seen xs ↔ x ∈ xs ∧ x ∉ seen.
Proof.
  revert seen. induction xs as [|y xs IH]; intros seen; simpl.
  - split; [constructor|]. intros x. rewrite elem_of_nil. tauto.
  - destruct (IH seen) as [Hnd Hin], (IH (y :: seen)) as [Hnd' Hin'].
    case_bool_decide as Hy.
    + split; [done|]. intros x. rewrite Hin, elem_of_cons.
      split; [tauto|]. intros [[->|?] ?]; tauto.
    + split.
      * constructor; [|done]. rewrite Hin', elem_of_cons. tauto.
      * intros x. rewrite !elem_of_cons, Hin', elem_of_cons.
        destruct (decide (x = y)) as [->|]; tauto.
Qed.

Lemma elem_of_Set_of_categories catalog (c : string) :
  c ∈ Set_of [] (List.map Product.category catalog)
  ↔ ∃ p, p ∈ catalog ∧ Product.category p = c.
Proof.
  destruct (Set_of_spec [] (List.map Product.category catalog)) as [_ Hin].
  rewrite Hin, elem_of_nil.
  change (List.map Product.category catalog) with (Product.category <$> catalog).
  rewrite list_elem_of_fmap. split.
  - intros [(p & -> & Hp) _]. by exists p.
  - intros (p & Hp & <-). split; [by exists p|tauto].
Qed.

(** X12: the category selector offers "All" followed by the categories of
    the catalog, each of them once. *)
Theorem categories_selector catalog :
  ∃ offered : list string,
    categories catalog = "All" :: offered
    ∧ NoDup offered
    ∧ ∀ c : string,
        c ∈ offered ↔ ∃ p, p ∈ catalog ∧ Product.category p = c.
Proof.
  exists (Set_of [] (List.map Product.category catalog)).
  destruct (Set_of_spec [] (List.map Product.category catalog)) as [Hnd _].
  split; [reflexivity|]. split; [done|]. apply elem_of_Set_of_categories.
Qed.

(** X13: every option of the category selector shows at least one product
    when nothing is typed in the search box, as long as the catalog has a
    product at all. *)
Theorem offered_category_shows_products catalog category sort :
  category ∈ categories catalog →
  catalog ≠ [] →
  filteredProducts catalog EmptyString category sort ≠ [].
Proof.
  intros Hcat Hne.
  assert (∃ p, p ∈ catalog ∧ (category = "All" ∨ Product.category p = category))
    as (p & Hp & Hsel).
  { unfold categories in Hcat. apply elem_of_cons in Hcat as [->|Hcat].
    - destruct catalog as [|p catalog]; [done|]. exists p. split; [left|by left].
    - apply elem_of_Set_of_categories in Hcat as (p & Hp & <-).
      exists p. by split; [|right]. }
  assert (p ∈ filteredProducts catalog EmptyString category sort) as Hin.
  { apply elem_of_filteredProducts. split; [done|]. split; [|done].
    left. apply contains_ci_empty. }
  intros Hnil. rewrite Hnil in Hin. by apply elem_of_nil in Hin.
Qed.

Lemma offered_category_shows_products_witness :
  filteredProducts SAMPLE_PRODUCTS EmptyString "Healthy" "price-desc" ≠ [].
Proof.
  refine (offered_category_shows_products SAMPLE_PRODUCTS "Healthy"
            "price-desc" _ _); [|discriminate].
  change ("Healthy" ∈ ["All"; "Classic"; "Healthy"; "Decadent"]).
  do 2 right. left.
Defined.

End Listing.

(** ** Orders and sessions *)

Section Orders.

Implicit Types (st : State.t) (clock : Clock) (evs : list event)
  (o : Order.t).

Lemma complete_tests (info : OrderInfo.t) :
  String.eqb (OrderInfo.name info) EmptyString
  || String.eqb (OrderInfo.email info) EmptyString
  || String.eqb (OrderInfo.address info) EmptyString = false
  ↔ complete info.
Proof.
  unfold complete. rewrite !orb_false_iff, !String.eqb_neq. tauto.
Qed.



(** X15: the line items of an order are a snapshot of the cart: one item
    per cart entry with its id and quantity, priced at the catalog price of
    the product and named after it, or priced 0 and named by its id when
    the catalog does not resolve the id. *)
Theorem order_items_snapshot clock st :
  (λ it, (Item.id it, Item.qty it)) <$> Order.items (build_order clock st)
  = map_to_list (State.cart st)
  ∧ (list_to_map ((λ it, (Item.id it, Item.qty it))
                    <$> Order.items (build_order clock st))
       : gmap string Z) = State.cart st
  ∧ ∀ it : Item.t,
      it ∈ Order.items (build_order clock st) →
      State.cart st !! Item.id it = Some (Item.qty it)
      ∧ match find_product (State.products st) (Item.id it) with
        | Some p =>
            (Item.unitPrice it == Product.price p)%Q
            ∧ (Product.name p ≠ EmptyString → Item.name it = Product.name p)
        | None => Item.unitPrice it = 0%Q ∧ Item.name it = Item.id it
        end.
Proof.
  assert ((λ it, (Item.id it, Item.qty it)) <$> Order.items (build_order clock st)
          = map_to_list (State.cart st)) as Hitems.
  { unfold build_order, Js.Object_entries. cbn [Order.items].
    change (List.map ?f ?l) with (f <$> l). rewrite <- list_fmap_compose.
    rewrite <- (list_fmap_id (map_to_list (State.cart st))) at 2.
    apply list_fmap_ext. by intros _ [id qty] _. }
  split; [exact Hitems|]. split.
  - rewrite Hitems. apply list_to_map_to_list.
  - intros it Hit. unfold build_order, Js.Object_entries in Hit.
    cbn [Order.items] in Hit. change (List.map ?f ?l) with (f <$> l) in Hit.
    apply list_elem_of_fmap in Hit as ([id qty] & -> & Hin).
    apply elem_of_map_to_list in Hin. cbn [Item.id Item.qty Item.unitPrice Item.name].
    split; [done|].
    destruct (find_product (State.products st) id) as [p|]; simpl.
    + split.
      * destruct (Qeq_bool (Product.price p) 0) eqn:Hzero; [|reflexivity].
        apply Qeq_bool_eq in Hzero. by rewrite Hzero.
      * intros Hname. by destruct (Product.name p).
    + done.
Qed.

Lemma order_items_snapshot_witness :
  State.cart (initial {[ "gone" := 3 ]}) !! Item.id (Item.mk "gone" "gone" 3 0)
  = Some (Item.qty (Item.mk "gone" "gone" 3 0))
  ∧ match find_product (State.products (initial {[ "gone" := 3 ]}))
            (Item.id (Item.mk "gone" "gone" 3 0)) with
    | Some p =>
        (Item.unitPrice (Item.mk "gone" "gone" 3 0) == Product.price p)%Q
        ∧ (Product.name p ≠ EmptyString →
           Item.name (Item.mk "gone" "gone" 3 0) = Product.name p)
    | None =>
        Item.unitPrice (Item.mk "gone" "gone" 3 0) = 0%Q
        ∧ Item.name (Item.mk "gone" "gone" 3 0)
          = Item.id (Item.mk "gone" "gone" 3 0)
    end.
Proof.
  refine (proj2 (proj2 (order_items_snapshot
                          (mkClock 1000 "1970-01-01T00:00:01.000Z")
                          (initial {[ "gone" := 3 ]})))
            (Item.mk "gone" "gone" 3 0) _).
  vm_compute. left.
Defined.

Lemma handlePlaceOrder_orders clock st o :
  o ∈ orders_of (handlePlaceOrder clock st).2 →
  o = build_order clock st
  ∧ complete (State.orderInfo st)
  ∧ itemsInCart (State.cart st) ≠ 0.
Proof.
  unfold handlePlaceOrder. cbv zeta.
  destruct (_ || _) eqn:Hinfo; [by intros ?%elem_of_nil|].
  destruct (Z.eqb_spec (itemsInCart (State.cart st)) 0) as [|Hcount];
    [by intros ?%elem_of_nil|].
  cbn [snd orders_of omap]. intros ->%list_elem_of_singleton.
  split; [done|]. split; [by apply complete_tests|done].
Qed.

Lemma dispatch_orders st (ev : event) o :
  o ∈ orders_of (dispatch st ev).2 →
  ∃ clock, o = build_order clock st
           ∧ complete (State.orderInfo st)
           ∧ itemsInCart (State.cart st) ≠ 0.
Proof.
  destruct ev; try (by intros ?%elem_of_nil). simpl.
  destruct (State.checkoutOpen st); [|by intros ?%elem_of_nil].
  intros Ho. eexists. by apply handlePlaceOrder_orders.
Qed.

Lemma build_order_valid clock st :
  complete (State.orderInfo st) →
  itemsInCart (State.cart st) ≠ 0 →
  complete (Order.customer (build_order clock st))
  ∧ Order.items (build_order clock st) ≠ []
  ∧ (Order.subtotal (build_order clock st)
     == items_sum (Order.items (build_order clock st)))%Q.
Proof.
  intros Hinfo Hcount. split; [done|]. split.
  - intros Hnil. apply Hcount.
    unfold build_order, Js.Object_entries in Hnil. cbn [Order.items] in Hnil.
    apply map_eq_nil in Hnil.
    unfold itemsInCart, Js.Object_values, Js.Object_entries.
    by rewrite Hnil.
  - rewrite build_order_items_sum. apply cartTotal_total_spec.
Qed.

(** X16: no session ever hands out a degenerate order: every order of a
    session has a non-empty name, email and address, has at least one line
    item, and carries the sum of its line items as subtotal. *)
Theorem session_orders_valid st evs o :
  o ∈ orders_of (session st evs).2 →
  complete (Order.customer o)
  ∧ Order.items o ≠ []
  ∧ (Order.subtotal o == items_sum (Order.items o))%Q.
Proof.
  revert st. induction evs as [|ev evs IH]; intros st.
  - by intros ?%elem_of_nil.
  - cbn [session]. pose proof (dispatch_orders st ev o) as Hev.
    destruct (dispatch st ev) as [st1 out1].
    specialize (IH st1). destruct (session st1 evs) as [st2 out2].
    cbn [snd] in *. unfold orders_of in *. rewrite omap_app, elem_of_app.
    intros [Ho|Ho]; [|by apply IH].
    destruct (Hev Ho) as (clock & -> & Hinfo & Hcount).
    by apply build_order_valid.
Qed.

Lemma session_orders_valid_witness :
  complete (OrderInfo.mk "Jo" "j@x.com" "1 St")
  ∧ Order.items
      (build_order (mkClock 1000 "2026-01-01T00:00:00.000Z")
         (State.setOrderInfo (OrderInfo.mk "Jo" "j@x.com" "1 St")
            (initial {[ "cookies-01" := 1%Z ]}))) ≠ []
  ∧ (Order.subtotal
       (build_order (mkClock 1000 "2026-01-01T00:00:00.000Z")
          (State.setOrderInfo (OrderInfo.mk "Jo" "j@x.com" "1 St")
             (initial {[ "cookies-01" := 1%Z ]})))
     == items_sum
          (Order.items
             (build_order (mkClock 1000 "2026-01-01T00:00:00.000Z")
                (State.setOrderInfo (OrderInfo.mk "Jo" "j@x.com" "1 St")
                   (initial {[ "cookies-01" := 1%Z ]})))))%Q.
Proof.
  refine (session_orders_valid (initial ∅) (two_checkouts 1000 2000)
            (build_order (mkClock 1000 "2026-01-01T00:00:00.000Z")
               (State.setOrderInfo (OrderInfo.mk "Jo" "j@x.com" "1 St")
                  (initial {[ "cookies-01" := 1%Z ]}))) _).
  vm_compute. left.
Defined.

End Orders.

(** ** The cart the page can reach *)

Section PageSessions.

Implicit Types (st : State.t) (evs : list event) (ev : event).

Lemma dispatch_products st ev :
  State.products (dispatch st ev).1 = State.products st.
Proof.
  destruct ev; try reflexivity. simpl.
  destruct (State.checkoutOpen st); [|reflexivity].
  unfold handlePlaceOrder. cbv zeta.
  destruct (_ || _); [reflexivity|]. by destruct (_ =? _).
Qed.

(** A product of the catalog is found under its id. *)
Lemma find_product_is_Some (products : list Product.t) (p : Product.t) :
  p ∈ products → is_Some (find_product products (Product.id p)).
Proof.
  intros Hp. unfold find_product.
  destruct (List.find _ products) as [p'|] eqn:Hfind; [by eexists|].
  apply list_elem_of_In in Hp.
  pose proof (List.find_none _ _ Hfind p Hp) as Hno. simpl in Hno.
  by rewrite String.eqb_refl in Hno.
Qed.

Lemma dispatch_cart_entries_valid st ev :
  emits st ev →
  cart_entries_valid (State.products st) (State.cart st) →
  cart_entries_valid (State.products (dispatch st ev).1)
    (State.cart (dispatch st ev).1).
Proof.
  intros Hev Hvalid. rewrite dispatch_products.
  destruct Hev as [v|v _|v _|p qty Hp Hqty|id qty Hid|id qty Hid| | |
                   |_|v _ _|clock Hopen|_]; try exact Hvalid.
  - (* Add and Add 3 on a product card *)
    apply elem_of_filteredProducts in Hp as [Hp _].
    intros k q. cbn [dispatch fst State.setCart State.cart].
    destruct (decide (k = Product.id p)) as [->|Hne].
    + rewrite addToCart_lookup. intros [= <-].
      split; [|by apply find_product_is_Some].
      destruct (State.cart st !! Product.id p) as [w|] eqn:Hw; simpl.
      * destruct (Hvalid _ _ Hw). lia.
      * lia.
    + rewrite addToCart_lookup_ne by done. apply Hvalid.
  - (* the minus button of a line *)
    intros k q. cbn [dispatch fst State.setCart State.cart].
    destruct (decide (k = id)) as [->|Hne].
    + rewrite updateQty_lookup. destruct (Z.leb_spec (qty - 1) 0); [done|].
      intros [= <-]. split; [lia|]. by destruct (Hvalid _ _ Hid).
    + rewrite updateQty_lookup_ne by done. apply Hvalid.
  - (* the plus button of a line *)
    intros k q. cbn [dispatch fst State.setCart State.cart].
    destruct (decide (k = id)) as [->|Hne].
    + rewrite updateQty_lookup. destruct (Z.leb_spec (qty + 1) 0); [done|].
      intros [= <-]. split; [lia|]. by destruct (Hvalid _ _ Hid).
    + rewrite updateQty_lookup_ne by done. apply Hvalid.
  - (* Clear Cart *)
    intros k q. cbn [dispatch fst State.setCart State.cart].
    unfold Cart.clearCart. by rewrite lookup_empty.
  - (* Place Order *)
    cbn [dispatch]. rewrite Hopen. unfold handlePlaceOrder. cbv zeta.
    destruct (_ || _); [exact Hvalid|].
    destruct (_ =? _); [exact Hvalid|].
    intros k q. cbn [fst State.setCheckoutOpen State.setCart State.cart].
    unfold Cart.clearCart. by rewrite lookup_empty.
Qed.

(** X17: the page keeps the CartEntry invariant: in whatever order its
    controls are used, from a cart whose keys are product ids with
    quantities of at least 1 (the empty cart for one), every key of the
    cart stays the id of a catalog product and every quantity stays at
    least 1; and the catalog itself is never changed. *)
Theorem page_keeps_cart_valid st evs :
  page_session st evs →
  cart_entries_valid (State.products st) (State.cart st) →
  cart_entries_valid (State.products st) (State.cart (session st evs).1)
  ∧ State.products (session st evs).1 = State.products st.
Proof.
  revert st. induction evs as [|ev evs IH]; intros st Hpage Hvalid; [done|].
  destruct Hpage as [Hev Hpage]. cbn [session].
  pose proof (dispatch_cart_entries_valid st ev Hev Hvalid) as Hstep.
  pose proof (dispatch_products st ev) as Hprod.
  destruct (dispatch st ev) as [st1 out1]. cbn [fst] in *.
  destruct (IH st1 Hpage Hstep) as [Hcart Hsame].
  destruct (session st1 evs) as [st2 out2]. cbn [fst] in *.
  rewrite <- Hprod. split; [done|]. by rewrite Hsame.
Qed.

Lemma a_visit_page_session : page_session (initial ∅) a_visit.
Proof.
  assert (∀ st (id : string) (qty : Z),
            (∃ p, p ∈ filteredProducts (State.products st) (State.query st)
                        (State.category st) (State.sort st)
                  ∧ Product.id p = id) →
            qty = 1 ∨ qty = 3 → emits st (ClickAdd id qty)) as Hadd.
  { intros st id qty (p & Hp & <-) Hqty. by apply emits_add. }
  repeat split.
  - apply Hadd; [|by left]. eexists. split; [left|reflexivity].
  - apply Hadd; [|by right]. eexists.
    split; [do 2 right; left|reflexivity].
  - by apply (emits_less _ "cookies-03" 3).
  - apply emits_category. do 1 right. left.
  - apply Hadd; [|by right]. eexists. split; [right; left|reflexivity].
  - by apply (emits_less _ "cookies-01" 1).
Qed.

Lemma page_keeps_cart_valid_witness :
  cart_entries_valid SAMPLE_PRODUCTS (State.cart (session (initial ∅) a_visit).1)
  ∧ State.products (session (initial ∅) a_visit).1 = SAMPLE_PRODUCTS.
Proof.
  refine (page_keeps_cart_valid (initial ∅) a_visit a_visit_page_session _).
  intros id q Hq. cbn [initial State.cart] in Hq.
  by rewrite lookup_empty in Hq.
Defined.

Example a_visit_cart :
  State.cart (session (initial ∅) a_visit).1
  = {[ "cookies-03" := 2; "cookies-04" := 3 ]}.
Proof. vm_compute. reflexivity. Qed.

End PageSessions.

(** ** Searching *)

Section Searching.

Implicit Types (catalog : list Product.t) (query category sort : string)
  (p : Product.t).

(** X18: the search does not see the case of the search text: over a
    catalog of ASCII names and descriptions, two ASCII texts that differ
    only in the case of their letters ([same_text], stated on the character
    codes) show the same list. *)
Theorem search_ignores_case catalog query (query' : string) category sort :
  ascii_catalog catalog →
  ascii_text query →
  ascii_text query' →
  same_text query query' →
  filteredProducts catalog query category sort
  = filteredProducts catalog query' category sort.
Proof.
  intros _ _ _ Hsame. apply same_text_lower_eq in Hsame.
  unfold filteredProducts. by rewrite Hsame.
Qed.

Lemma search_ignores_case_witness :
  filteredProducts SAMPLE_PRODUCTS "Oat" "All" "featured"
  = filteredProducts SAMPLE_PRODUCTS "oAT" "All" "featured".
Proof.
  refine (search_ignores_case SAMPLE_PRODUCTS "Oat" "oAT" "All" "featured"
            _ _ _ _).
  - exact SAMPLE_PRODUCTS_ascii.
  - repeat split.
  - repeat split.
  - apply same_text_cons;
      [apply same_char_lower; unfold small_of; cbn; lia|].
    apply same_text_cons;
      [apply same_char_upper; unfold small_of; cbn; lia|].
    apply same_text_cons;
      [apply same_char_upper; unfold small_of; cbn; lia|].
    constructor.
Defined.

Lemma contains_ci_lower (text search : string) :
  contains_ci text search
  ↔ ∃ before after : string,
      Js.toLowerCase text = before +:+ Js.toLowerCase search +:+ after.
Proof. by rewrite <- includes_toLowerCase, includes_spec. Qed.

Lemma contains_ci_trans (text search search' : string) :
  contains_ci text search' → contains_ci search' search →
  contains_ci text search.
Proof.
  rewrite !contains_ci_lower.
  intros (b & a & Htext) (b' & a' & Hsearch).
  exists (b +:+ b'), (a' +:+ a).
  by rewrite Htext, Hsearch, !string_app_assoc.
Qed.

(** X19: typing more never shows more: over a catalog of ASCII names and
    descriptions, when an ASCII search text is extended, at either end,
    every product still shown was shown before. *)
Theorem search_narrows catalog query (query' : string) category sort p :
  ascii_catalog catalog →
  ascii_text query →
  ascii_text query' →
  contains_ci query' query →
  p ∈ filteredProducts catalog query' category sort →
  p ∈ filteredProducts catalog query category sort.
Proof.
  intros _ _ _ Hext. rewrite !elem_of_filteredProducts.
  intros (Hp & [Hname|Hdesc] & Hcat); (split; [done|]); (split; [|done]).
  - left. by eapply contains_ci_trans.
  - right. by eapply contains_ci_trans.
Qed.

Lemma search_narrows_witness :
  Forall (λ p, p ∈ filteredProducts SAMPLE_PRODUCTS "choc" "All" "price-asc")
    (filteredProducts SAMPLE_PRODUCTS "Double Choc" "All" "price-asc").
Proof.
  apply Forall_forall. intros p Hp.
  refine (search_narrows SAMPLE_PRODUCTS "choc" "Double Choc" "All"
            "price-asc" p _ _ _ _ Hp).
  - exact SAMPLE_PRODUCTS_ascii.
  - repeat split.
  - repeat split.
  - exists "Double ", "Choc", EmptyString.
    split; [reflexivity|]. apply same_text_lower_eq. reflexivity.
Defined.

End Searching.

(** ** Orders placed through the page *)

Section PageOrders.

Implicit Types (st : State.t) (evs : list event) (o : Order.t).

Lemma build_order_items_valid (clock : Clock) st (it : Item.t) :
  cart_entries_valid (State.products st) (State.cart st) →
  it ∈ Order.items (build_order clock st) →
  1 ≤ Item.qty it
  ∧ ∃ p : Product.t,
      find_product (State.products st) (Item.id it) = Some p
      ∧ (Item.unitPrice it == Product.price p)%Q.
Proof.
  intros Hvalid Hit. unfold build_order, Js.Object_entries in Hit.
  cbn [Order.items] in Hit. change (List.map ?f ?l) with (f <$> l) in Hit.
  apply list_elem_of_fmap in Hit as ([id qty] & -> & Hin).
  apply elem_of_map_to_list in Hin.
  destruct (Hvalid _ _ Hin) as [Hqty [p Hp]].
  cbn [Item.id Item.qty Item.unitPrice]. split; [done|].
  exists p. split; [done|]. rewrite Hp. simpl.
  destruct (Qeq_bool (Product.price p) 0) eqn:Hzero; [|reflexivity].
  apply Qeq_bool_eq in Hzero. by rewrite Hzero.
Qed.

(** X20: an order placed through the page lists no ghost: starting from a
    cart that satisfies the CartEntry invariant, every line item of every
    order of a page session has a quantity of at least 1 and is a product
    of the catalog at its catalog price, so the fallback for unresolved
    ids is never used. *)
Theorem page_orders_list_catalog_products st evs o (it : Item.t) :
  page_session st evs →
  cart_entries_valid (State.products st) (State.cart st) →
  o ∈ orders_of (session st evs).2 →
  it ∈ Order.items o →
  1 ≤ Item.qty it
  ∧ ∃ p : Product.t,
      find_product (State.products st) (Item.id it) = Some p
      ∧ (Item.unitPrice it == Product.price p)%Q.
Proof.
  revert st. induction evs as [|ev evs IH]; intros st Hpage Hvalid.
  - by intros ?%elem_of_nil.
  - destruct Hpage as [Hev Hpage]. cbn [session].
    pose proof (dispatch_orders st ev o) as Horders.
    pose proof (dispatch_cart_entries_valid st ev Hev Hvalid) as Hstep.
    pose proof (dispatch_products st ev) as Hprod.
    destruct (dispatch st ev) as [st1 out1]. cbn [fst snd] in *.
    specialize (IH st1 Hpage Hstep). rewrite Hprod in IH.
    destruct (session st1 evs) as [st2 out2]. cbn [snd] in *.
    unfold orders_of in *. rewrite omap_app, elem_of_app.
    intros [Ho|Ho] Hit; [|by apply IH].
    destruct (Horders Ho) as (clock & -> & _ & _).
    by eapply build_order_items_valid.
Qed.

Lemma a_purchase_page_session : page_session (initial ∅) a_purchase.
Proof.
  assert (∀ st (id : string) (qty : Z),
            (∃ p, p ∈ filteredProducts (State.products st) (State.query st)
                        (State.category st) (State.sort st)
                  ∧ Product.id p = id) →
            qty = 1 ∨ qty = 3 → emits st (ClickAdd id qty)) as Hadd.
  { intros st id qty (p & Hp & <-) Hqty. by apply emits_add. }
  repeat split.
  - apply Hadd; [|by left]. eexists. split; [left|reflexivity].
  - apply Hadd; [|by right]. eexists.
    split; [do 2 right; left|reflexivity].
  - by apply (emits_less _ "cookies-03" 3).
  - apply emits_category. do 1 right. left.
  - apply Hadd; [|by right]. eexists. split; [right; left|reflexivity].
  - by apply (emits_less _ "cookies-01" 1).
  - apply emits_open.
  - apply emits_info; [reflexivity|]. by left.
  - apply emits_info; [reflexivity|]. right. by left.
  - apply emits_info; [reflexivity|]. right. by right.
  - by apply emits_submit.
Qed.

Lemma page_orders_list_catalog_products_witness :
  Forall (λ o,
    Forall (λ it,
      1 ≤ Item.qty it
      ∧ ∃ p : Product.t,
          find_product SAMPLE_PRODUCTS (Item.id it) = Some p
          ∧ (Item.unitPrice it == Product.price p)%Q)
      (Order.items o))
    (orders_of (session (initial ∅) a_purchase).2).
Proof.
  apply Forall_forall. intros o Ho. apply Forall_forall. intros it Hit.
  refine (page_orders_list_catalog_products (initial ∅) a_purchase o it
            a_purchase_page_session _ Ho Hit).
  intros id q Hq. cbn [initial State.cart] in Hq.
  by rewrite lookup_empty in Hq.
Defined.

Example a_purchase_order :
  (λ o, (Order.id o, (λ it, (Item.id it, Item.qty it)) <$> Order.items o))
    <$> orders_of (session (initial ∅) a_purchase).2
  = [("ORD-1712000000000", [("cookies-03", 2); ("cookies-04", 3)])].
Proof. vm_compute. reflexivity. Qed.

End PageOrders.

(** ** The cart as a plain object of doubles *)

Section Doubles.

Implicit Types (n q : Z) (x y : Double.t).

Lemma pow_53_1024 : 2 ^ 53 < 2 ^ 1024.
Proof. apply Z.pow_lt_mono_r; lia. Qed.


(** Integers up to 2^53 in magnitude are doubles: nothing is rounded. *)
Lemma round_safe n : Z.abs n ≤ 2 ^ 53 → Double.round n = n.
Proof.
  intros Hn. unfold Double.round. cbv zeta.
  destruct (Z.leb_spec (Z.abs n) (2 ^ 53)); [reflexivity|lia].
Qed.

Lemma of_Z_safe n : Z.abs n ≤ 2 ^ 53 → Double.of_Z n = Double.Int n.
Proof.
  intros Hn. unfold Double.of_Z. cbv zeta. rewrite round_safe by done.
  pose proof pow_53_1024.
  destruct (Z.ltb_spec (Z.abs n) (2 ^ 1024)); [reflexivity|lia].
Qed.

(** Beyond 2^53 the rounded magnitude is a positive multiple of a power of
    two. *)
Lemma round_large n :
  2 ^ 53 < Z.abs n →
  ∃ m, 0 < m ∧ Double.round n = Z.sgn n * m.
Proof.
  intros Hn. unfold Double.round. cbv zeta.
  destruct (Z.leb_spec (Z.abs n) (2 ^ 53)); [lia|].
  set (a := Z.abs n) in *.
  set (e := Z.log2 a - 52).
  assert (Ha : 0 < a) by (pose proof (Z.pow_pos_nonneg 2 53); lia).
  destruct (Z.log2_spec a Ha) as [Hlo Hhi].
  assert (He : 0 ≤ e).
  { unfold e. assert (53 ≤ Z.log2 a); [|lia].
    apply Z.log2_le_pow2; [done|lia]. }
  assert (Hpow : 0 < 2 ^ e) by (apply Z.pow_pos_nonneg; lia).
  assert (Hle : 2 ^ e ≤ a).
  { etransitivity; [|exact Hlo]. apply Z.pow_le_mono_r; unfold e; lia. }
  assert (Hq : 1 ≤ a / 2 ^ e).
  { apply Z.div_le_lower_bound; lia. }
  eexists. split; [|reflexivity].
  repeat match goal with |- context [if ?b then _ else _] => destruct b end; nia.
Qed.

Lemma round_sgn n : Z.sgn (Double.round n) = Z.sgn n.
Proof.
  destruct (Z.le_gt_cases (Z.abs n) (2 ^ 53)) as [Hn|Hn].
  - by rewrite round_safe.
  - destruct (round_large n Hn) as (m & Hm & ->).
    rewrite Z.sgn_mul, (Z.sgn_pos m) by done. rewrite Z.sgn_sgn. lia.
Qed.


(** Rounding keeps the sign: the test [qty <= 0] on the double of an
    integer is the test on the integer. *)
Lemma le0_of_Z q : Double.le0 (Double.of_Z q) = (q <=? 0).
Proof.
  unfold Double.of_Z. cbv zeta. pose proof (round_sgn q) as Hs.
  destruct (Z.ltb_spec (Z.abs (Double.round q)) (2 ^ 1024)); simpl.
  - destruct (Z.leb_spec (Double.round q) 0), (Z.leb_spec q 0); try done; lia.
  - destruct (Z.leb_spec q 0) as [Hq|Hq], (Z.ltb_spec q 0) as [Hq'|Hq'];
      try done; lia.
Qed.





End Doubles.

Section PlainObject.

Implicit Types (o : Obj.t) (cart : gmap string Z) (id k : string) (q : Z)
  (v : Obj.value).

Lemma plain_key_not_proto id : Obj.plain_key id → id ≠ "__proto__".
Proof. intros Hp ->. discriminate Hp. Qed.

Lemma get_own o id v : o !! id = Some v → Obj.get id o = Obj.Own v.
Proof. intros Hv. unfold Obj.get. by rewrite Hv. Qed.

Lemma get_plain o id :
  o !! id = None → Obj.plain_key id → Obj.get id o = Obj.Undefined.
Proof. intros Hv Hp. unfold Obj.get. by rewrite Hv, Hp. Qed.

Lemma set_insert o id v :
  id ≠ "__proto__" ∨ is_Some (o !! id) → Obj.set id v o = <[id := v]> o.
Proof.
  intros Hid. unfold Obj.set.
  destruct (String.eqb_spec id "__proto__") as [->|Hne]; [|reflexivity].
  destruct Hid as [Hid|[w Hw]]; [done|].
  rewrite bool_decide_eq_false_2; [reflexivity|]. by rewrite Hw.
Qed.


Lemma set_lookup_ne o id k v : k ≠ id → Obj.set id v o !! k = o !! k.
Proof.
  intros Hne. unfold Obj.set. destruct (_ && _); [reflexivity|].
  by rewrite lookup_insert_ne.
Qed.

Lemma of_cart_lookup cart id :
  Obj.of_cart cart !! id = (λ n, Obj.Num (Double.Int n)) <$> cart !! id.
Proof. apply lookup_fmap. Qed.

Lemma of_cart_inj cart (cart' : gmap string Z) :
  Obj.of_cart cart = Obj.of_cart cart' → cart = cart'.
Proof.
  intros Heq. apply map_eq. intros k.
  assert (Hk : Obj.of_cart cart !! k = Obj.of_cart cart' !! k) by by rewrite Heq.
  rewrite !of_cart_lookup in Hk.
  destruct (cart !! k), (cart' !! k); simpl in Hk; congruence.
Qed.

(** Within the safe integers, and for an id that is in the cart or is a
    plain key, [addToCart] on the object is [addToCart] on the mapping. *)
Lemma addToCart_of_cart cart id q :
  Z.abs q ≤ 2 ^ 53 →
  Z.abs (default 0 (cart !! id) + q) ≤ 2 ^ 53 →
  Obj.plain_key id ∨ is_Some (cart !! id) →
  Obj.addToCart id (Double.of_Z q) (Obj.of_cart cart)
  = Obj.of_cart (Cart.addToCart id q cart).
Proof.
  intros Hq Hsum Hid. unfold Obj.addToCart, Cart.addToCart. cbv zeta.
  rewrite (of_Z_safe q) by done. rewrite or_zero_default.
  unfold Obj.of_cart at 3. rewrite fmap_insert. fold (Obj.of_cart cart).
  destruct (cart !! id) as [w|] eqn:Hw.
  - rewrite (get_own _ _ (Obj.Num (Double.Int w)))
      by (by rewrite of_cart_lookup, Hw).
    rewrite set_insert by (right; rewrite of_cart_lookup, Hw; by eexists).
    simpl in *. f_equal. f_equal.
    destruct (Z.eqb_spec w 0) as [->|Hne]; simpl; by rewrite of_Z_safe.
  - destruct Hid as [Hp|[? ?]]; [|done].
    rewrite get_plain by (by rewrite ?of_cart_lookup, ?Hw).
    rewrite set_insert by (left; by apply plain_key_not_proto).
    simpl in *. f_equal. f_equal. by rewrite of_Z_safe.
Qed.

(** For an id other than [__proto__], or one that is in the cart,
    [updateQty] on the object is [updateQty] on the mapping. *)
Lemma updateQty_of_cart cart id q :
  Z.abs q ≤ 2 ^ 53 →
  id ≠ "__proto__" ∨ is_Some (cart !! id) →
  Obj.updateQty id (Double.of_Z q) (Obj.of_cart cart)
  = Obj.of_cart (Cart.updateQty id q cart).
Proof.
  intros Hq Hid. unfold Obj.updateQty, Cart.updateQty. cbv zeta.
  rewrite le0_of_Z. destruct (q <=? 0).
  - unfold Obj.of_cart. by rewrite fmap_delete.
  - rewrite set_insert.
    + rewrite of_Z_safe by done. unfold Obj.of_cart. by rewrite fmap_insert.
    + destruct Hid as [Hid|[w Hw]]; [by left|right].
      rewrite of_cart_lookup, Hw. by eexists.
Qed.




(** C6, amended: [add(cart, id, q)] on the cart object, for a cart of
    integer quantities, an [id] that is in the cart or is not the name of
    a property of [Object.prototype], and [q] and the sum within the safe
    integers.  The entry under [id] becomes the previous quantity (0 when
    absent) plus [q], for every such [q], positive or not; every other
    entry is as before; adding 1 twice to an absent id gives 2; and the
    result is the cart given only for [q = 0] on an id that is present. *)
Theorem addToCart_entry cart id q :
  Z.abs q ≤ 2 ^ 53 →
  Z.abs (default 0 (cart !! id) + q) ≤ 2 ^ 53 →
  Obj.plain_key id ∨ is_Some (cart !! id) →
  Obj.addToCart id (Double.of_Z q) (Obj.of_cart cart) !! id
  = Some (Obj.Num (Double.Int (default 0 (cart !! id) + q)))
  ∧ (∀ k, k ≠ id →
       Obj.addToCart id (Double.of_Z q) (Obj.of_cart cart) !! k
       = Obj.of_cart cart !! k)
  ∧ (cart !! id = None →
       Obj.addToCart id (Double.of_Z 1)
         (Obj.addToCart id (Double.of_Z 1) (Obj.of_cart cart)) !! id
       = Some (Obj.Num (Double.Int 2)))
  ∧ (Obj.addToCart id (Double.of_Z q) (Obj.of_cart cart) = Obj.of_cart cart
     ↔ q = 0 ∧ is_Some (cart !! id)).
Proof.
  intros Hq Hsum Hid.
  split; [|split; [|split]].
  - rewrite addToCart_of_cart by done.
    by rewrite of_cart_lookup, addToCart_lookup.
  - intros k Hk. unfold Obj.addToCart. cbv zeta. by apply set_lookup_ne.
  - intros Hnone.
    rewrite (addToCart_of_cart cart id 1);
      [|by vm_compute|rewrite Hnone; by vm_compute|done].
    rewrite addToCart_of_cart.
    + rewrite of_cart_lookup, !addToCart_lookup, Hnone. reflexivity.
    + by vm_compute.
    + rewrite addToCart_lookup, Hnone. by vm_compute.
    + right. rewrite addToCart_lookup. by eexists.
  - rewrite addToCart_of_cart by done. rewrite <- addToCart_fixed.
    split; [apply of_cart_inj|by intros ->].
Qed.

Lemma addToCart_entry_witness :
  Obj.addToCart "cookies-01" (Double.of_Z 1)
    (Obj.addToCart "cookies-01" (Double.of_Z 1) (Obj.of_cart ∅))
  !! "cookies-01"
  = Some (Obj.Num (Double.Int 2)).
Proof.
  refine (proj1 (proj2 (proj2 (addToCart_entry ∅ "cookies-01" 1 _ _ _))) _).
  - by vm_compute.
  - by vm_compute.
  - left. reflexivity.
  - reflexivity.
Defined.






(** *** Counting on the object *)

Lemma abs_sum_any_order (values values' : list Z) :
  values ≡ₚ values' →
  foldr (λ n acc, Z.abs n + acc) 0 values
  = foldr (λ n acc, Z.abs n + acc) 0 values'.
Proof. induction 1; simpl; lia. Qed.

Lemma abs_sum_nonneg (values : list Z) :
  0 ≤ foldr (λ n acc, Z.abs n + acc) 0 values.
Proof. induction values; simpl; lia. Qed.

Lemma magnitude_nonneg cart : 0 ≤ magnitude cart.
Proof. apply abs_sum_nonneg. Qed.

Lemma magnitude_entries cart (entries : list (string * Z)) :
  entries ≡ₚ map_to_list cart →
  magnitude cart = foldr (λ n acc, Z.abs n + acc) 0 entries.*2.
Proof.
  intros Hperm. unfold magnitude. apply abs_sum_any_order. by rewrite Hperm.
Qed.

Lemma magnitude_insert cart id q :
  magnitude (<[id := q]> cart) = Z.abs q + magnitude (delete id cart).
Proof.
  rewrite <- insert_delete_eq.
  rewrite (magnitude_entries _ ((id, q) :: map_to_list (delete id cart))).
  - simpl. reflexivity.
  - symmetry. apply map_to_list_insert, lookup_delete_eq.
Qed.

Lemma magnitude_split cart id :
  magnitude cart
  = Z.abs (default 0 (cart !! id)) + magnitude (delete id cart).
Proof.
  destruct (cart !! id) as [w|] eqn:Hw; simpl.
  - rewrite <- magnitude_insert. by rewrite insert_id.
  - by rewrite delete_id.
Qed.

Lemma magnitude_lookup cart id :
  Z.abs (default 0 (cart !! id)) ≤ magnitude cart.
Proof.
  rewrite (magnitude_split cart id).
  pose proof (magnitude_nonneg (delete id cart)). lia.
Qed.

Lemma magnitude_addToCart cart id q :
  magnitude (Cart.addToCart id q cart) ≤ magnitude cart + Z.abs q.
Proof.
  unfold Cart.addToCart. cbv zeta.
  rewrite magnitude_insert, or_zero_default, (magnitude_split cart id). lia.
Qed.

Lemma magnitude_updateQty cart id q :
  magnitude (Cart.updateQty id q cart) ≤ magnitude cart + Z.abs q.
Proof.
  unfold Cart.updateQty. cbv zeta. rewrite (magnitude_split cart id).
  destruct (q <=? 0).
  - lia.
  - rewrite magnitude_insert. lia.
Qed.

(** While the magnitudes add up to at most 2^53, the loop of [reduce]
    forms exact sums. *)
Lemma count_object_loop (values : list Z) (a : Z) :
  Z.abs a + foldr (λ n acc, Z.abs n + acc) 0 values ≤ 2 ^ 53 →
  foldl Obj.plus (Obj.Num (Double.Int a))
    ((λ n, Obj.Num (Double.Int n)) <$> values)
  = Obj.Num (Double.Int (foldl (λ a b, a + b) a values)).
Proof.
  revert a. induction values as [|w values IH]; intros a Hsum; [reflexivity|].
  simpl in *. pose proof (abs_sum_nonneg values).
  rewrite of_Z_safe by lia. apply IH. lia.
Qed.

Lemma itemsInCart_of_cart cart :
  magnitude cart ≤ 2 ^ 53 →
  Obj.itemsInCart (Obj.of_cart cart) = Obj.Num (Double.Int (itemsInCart cart)).
Proof.
  intros Hm. unfold Obj.itemsInCart, Obj.of_cart, itemsInCart.
  rewrite map_to_list_fmap, <- list_fmap_compose.
  unfold Js.Object_values, Js.Object_entries.
  rewrite <- (count_object_loop _ 0) by (simpl; exact Hm).
  f_equal. rewrite <- list_fmap_compose. reflexivity.
Qed.

(** X3: on the cart object, adding [q] of a product raises the count shown
    on the cart button by exactly [q], whether or not the product was in
    the cart, for a cart of integer quantities whose magnitudes add up,
    with that of [q], to at most 2^53, and an id that is in the cart or is
    not the name of a property of [Object.prototype]. *)
Theorem count_after_addToCart cart id q :
  Obj.plain_key id ∨ is_Some (cart !! id) →
  magnitude cart + Z.abs q ≤ 2 ^ 53 →
  ∃ n : Z,
    Obj.itemsInCart (Obj.of_cart cart) = Obj.Num (Double.Int n)
    ∧ Obj.itemsInCart (Obj.addToCart id (Double.of_Z q) (Obj.of_cart cart))
      = Obj.Num (Double.Int (n + q)).
Proof.
  intros Hid Hm. exists (itemsInCart cart).
  pose proof (magnitude_nonneg cart).
  pose proof (magnitude_lookup cart id).
  pose proof (magnitude_addToCart cart id q).
  split.
  - apply itemsInCart_of_cart. lia.
  - rewrite addToCart_of_cart; [|lia|lia|done].
    rewrite itemsInCart_of_cart by lia.
    by rewrite itemsInCart_addToCart.
Qed.

Lemma count_after_addToCart_witness :
  ∃ n : Z,
    Obj.itemsInCart (Obj.of_cart {[ "cookies-01" := 2 ]})
    = Obj.Num (Double.Int n)
    ∧ Obj.itemsInCart
        (Obj.addToCart "cookies-02" (Double.of_Z 3)
           (Obj.of_cart {[ "cookies-01" := 2 ]}))
      = Obj.Num (Double.Int (n + 3)).
Proof.
  refine (count_after_addToCart {[ "cookies-01" := 2 ]} "cookies-02" 3 _ _).
  - left. reflexivity.
  - by vm_compute.
Defined.

(** X4: on the cart object, setting the quantity of a product to [q]
    changes the count by the difference between what is stored now, [q] or
    nothing when [q ≤ 0], and what was stored before, for a cart of
    integer quantities whose magnitudes add up, with that of [q], to at
    most 2^53, and an id that is in the cart or is not [__proto__]. *)
Theorem count_after_updateQty cart id q :
  id ≠ "__proto__" ∨ is_Some (cart !! id) →
  magnitude cart + Z.abs q ≤ 2 ^ 53 →
  ∃ n : Z,
    Obj.itemsInCart (Obj.of_cart cart) = Obj.Num (Double.Int n)
    ∧ Obj.itemsInCart (Obj.updateQty id (Double.of_Z q) (Obj.of_cart cart))
      = Obj.Num (Double.Int (n - default 0 (cart !! id) + Z.max q 0)).
Proof.
  intros Hid Hm. exists (itemsInCart cart).
  pose proof (magnitude_nonneg cart).
  pose proof (magnitude_updateQty cart id q).
  split.
  - apply itemsInCart_of_cart. lia.
  - rewrite updateQty_of_cart; [|lia|done].
    rewrite itemsInCart_of_cart by lia.
    by rewrite itemsInCart_updateQty.
Qed.

Lemma count_after_updateQty_witness :
  ∃ n : Z,
    Obj.itemsInCart (Obj.of_cart {[ "cookies-01" := 2; "cookies-02" := 1 ]})
    = Obj.Num (Double.Int n)
    ∧ Obj.itemsInCart
        (Obj.updateQty "cookies-01" (Double.of_Z 5)
           (Obj.of_cart {[ "cookies-01" := 2; "cookies-02" := 1 ]}))
      = Obj.Num (Double.Int (n - 2 + 5)).
Proof.
  refine (count_after_updateQty
            {[ "cookies-01" := 2; "cookies-02" := 1 ]} "cookies-01" 5 _ _).
  - left. discriminate.
  - by vm_compute.
Defined.

Lemma addToCart_twice_of_cart cart id (id' : string) (q1 q2 : Z) :
  Obj.plain_key id ∨ is_Some (cart !! id) →
  Obj.plain_key id' ∨ is_Some (cart !! id') →
  magnitude cart + Z.abs q1 + Z.abs q2 ≤ 2 ^ 53 →
  Obj.addToCart id (Double.of_Z q1)
    (Obj.addToCart id' (Double.of_Z q2) (Obj.of_cart cart))
  = Obj.of_cart (Cart.addToCart id q1 (Cart.addToCart id' q2 cart)).
Proof.
  intros Hid Hid' Hm.
  pose proof (magnitude_nonneg cart).
  pose proof (magnitude_lookup cart id').
  pose proof (magnitude_addToCart cart id' q2).
  pose proof (magnitude_lookup (Cart.addToCart id' q2 cart) id).
  rewrite (addToCart_of_cart cart id' q2); [|lia|lia|done].
  apply addToCart_of_cart; [lia|lia|].
  destruct Hid as [Hid|Hid]; [by left|right].
  destruct (decide (id = id')) as [->|Hne].
  - rewrite addToCart_lookup. by eexists.
  - by rewrite addToCart_lookup_ne.
Qed.

(** X7: on the cart object, additions accumulate and do not disturb each
    other: adding [q1] and then [q2] of one product is adding [q1 + q2] at
    once (so "Add 3" is three times "Add"), and additions of two products
    can be made in either order, for a cart of integer quantities whose
    magnitudes add up, with those of [q1] and [q2], to at most 2^53, and
    ids that are in the cart or are not names of properties of
    [Object.prototype]. *)
Theorem addToCart_object_accumulates cart id (id' : string) (q1 q2 : Z) :
  Obj.plain_key id ∨ is_Some (cart !! id) →
  Obj.plain_key id' ∨ is_Some (cart !! id') →
  magnitude cart + Z.abs q1 + Z.abs q2 ≤ 2 ^ 53 →
  Obj.addToCart id (Double.of_Z q2)
    (Obj.addToCart id (Double.of_Z q1) (Obj.of_cart cart))
  = Obj.addToCart id (Double.of_Z (q1 + q2)) (Obj.of_cart cart)
  ∧ Obj.addToCart id (Double.of_Z q1)
      (Obj.addToCart id' (Double.of_Z q2) (Obj.of_cart cart))
    = Obj.addToCart id' (Double.of_Z q2)
        (Obj.addToCart id (Double.of_Z q1) (Obj.of_cart cart)).
Proof.
  intros Hid Hid' Hm.
  pose proof (magnitude_nonneg cart).
  pose proof (magnitude_lookup cart id).
  split.
  - rewrite addToCart_twice_of_cart; [|done|done|lia].
    rewrite (addToCart_of_cart cart id (q1 + q2)); [|lia|lia|done].
    f_equal. apply addToCart_accumulates. exact id.
  - rewrite !addToCart_twice_of_cart; [|done|done|lia|done|done|lia].
    f_equal. apply addToCart_accumulates.
Qed.

Lemma addToCart_object_accumulates_witness :
  Obj.addToCart "cookies-01" (Double.of_Z 2)
    (Obj.addToCart "cookies-01" (Double.of_Z 1)
       (Obj.of_cart {[ "cookies-02" := 1 ]}))
  = Obj.addToCart "cookies-01" (Double.of_Z (1 + 2))
      (Obj.of_cart {[ "cookies-02" := 1 ]})
  ∧ Obj.addToCart "cookies-01" (Double.of_Z 1)
      (Obj.addToCart "cookies-02" (Double.of_Z 2)
         (Obj.of_cart {[ "cookies-02" := 1 ]}))
    = Obj.addToCart "cookies-02" (Double.of_Z 2)
        (Obj.addToCart "cookies-01" (Double.of_Z 1)
           (Obj.of_cart {[ "cookies-02" := 1 ]})).
Proof.
  refine (addToCart_object_accumulates
            {[ "cookies-02" := 1 ]} "cookies-01" "cookies-02" 1 2 _ _ _).
  - left. reflexivity.
  - left. reflexivity.
  - by vm_compute.
Defined.

(** C6 as stated fails: adding [-1] to a cart that holds 3 of a product is
    not a no-op, it leaves 2. *)
Lemma addToCart_object_nonpositive_not_noop :
  Obj.addToCart "cookies-01" (Double.of_Z (-1))
    (Obj.of_cart {[ "cookies-01" := 3 ]}) !! "cookies-01"
  = Some (Obj.Num (Double.Int 2))
  ∧ Obj.addToCart "cookies-01" (Double.of_Z (-1))
      (Obj.of_cart {[ "cookies-01" := 3 ]})
    ≠ Obj.of_cart {[ "cookies-01" := 3 ]}.
Proof.
  split; [reflexivity|].
  intros Heq.
  assert (Hl : Obj.addToCart "cookies-01" (Double.of_Z (-1))
                 (Obj.of_cart {[ "cookies-01" := 3 ]}) !! "cookies-01"
               = Some (Obj.Num (Double.Int 3))) by (rewrite Heq; reflexivity).
  discriminate Hl.
Qed.

End PlainObject.
